(** * PyClassJVM.attributes: the class-file attribute decoder

    A shallow embedding of [src/PyClassJVM/attributes.py] and
    [src/PyClassJVM/attribute_helpers.py], and the properties of the
    specification stated over it.

    - A Python [io.BytesIO] is a record of its buffer and its read position;
      [fp.read(n)] returns at most [n] bytes and never raises.
    - [struct.unpack] raises [struct.error] unless it is handed exactly
      [calcsize] bytes.  This is the only way the module notices a short
      input (the specification's TruncatedInput).
    - [constant_pool[i]] is Python list subscription: a negative index counts
      from the end, anything else out of range raises [IndexError] (the
      specification's InvalidSymbolIndex).
    - Python exceptions are the [Raise] outcome; nothing in the module catches
      one, so the first exception raised is the result of the whole call.
    - [Attribute.__subclasses__()] is the list of the classes the module
      defines, in definition order.
    - [Attribute.parse] and [Attribute_Code._parse] are mutually recursive;
      the recursion is bounded by a fuel argument, [Attribute_parse]
      supplies more fuel than there are unread bytes, and
      [Attribute_parse_total] shows that it never runs out. *)

From Stdlib Require Import Ascii.
From Stdlib Require Import ZArith String List Lia Bool Arith.
From Stdlib Require Import Strings.Byte.
From Stdlib Require DecimalString DecimalZ DecimalPos.
Import ListNotations.

(** ** Exceptions and outcomes *)

Inductive exn : Type :=
| struct_error      (* struct.error: unpack requires a buffer of n bytes *)
| IndexError        (* list index out of range *)
| AttributeError    (* the constant has no attribute 'value' *)
| TypeError         (* wrong number of positional arguments *)
| ValueError.       (* wrong number of values to unpack *)

Inductive outcome (A : Type) : Type :=
| Ok (a : A)
| Raise (e : exn)
| OutOfFuel.

Arguments Ok {A} a.
Arguments Raise {A} e.
Arguments OutOfFuel {A}.

(** ** io.BytesIO *)

Record BytesIO : Type := mkBytesIO {
  getvalue : list byte;   (* the whole buffer *)
  tell : nat              (* the read position *)
}.

(** [io.BytesIO(info)] *)
Definition BytesIO_new (info : list byte) : BytesIO := mkBytesIO info 0.

(** Bytes between the read position and the end of the buffer. *)
Definition unread (fp : BytesIO) : list byte := skipn (tell fp) (getvalue fp).

Definition remaining (fp : BytesIO) : nat := length (unread fp).

(** A computation over one mutable cursor that may raise. *)
Definition M (A : Type) : Type := BytesIO -> outcome (A * BytesIO).

Definition ret {A} (a : A) : M A := fun fp => Ok (a, fp).

Definition bind {A B} (c : M A) (k : A -> M B) : M B :=
  fun fp =>
    match c fp with
    | Ok (a, fp') => k a fp'
    | Raise e => Raise e
    | OutOfFuel => OutOfFuel
    end.

Definition lift {A} (r : outcome A) : M A :=
  fun fp =>
    match r with
    | Ok a => Ok (a, fp)
    | Raise e => Raise e
    | OutOfFuel => OutOfFuel
    end.

(** [c] run on a cursor of its own: only the value comes back, the cursor
    is dropped with the call. *)
Definition run {A} (c : M A) (fp : BytesIO) : outcome A :=
  match c fp with
  | Ok (a, _) => Ok a
  | Raise e => Raise e
  | OutOfFuel => OutOfFuel
  end.

Declare Scope py_scope.
Delimit Scope py_scope with py.
Notation "x <- c ;; k" := (bind c (fun x => k))
  (at level 61, c at next level, right associativity) : py_scope.
Local Open Scope py_scope.

(** [fp.read(n)]: the next [n] bytes, or all that is left when fewer remain. *)
Definition read (n : nat) : M (list byte) :=
  fun fp =>
    let data := firstn n (unread fp) in
    Ok (data, mkBytesIO (getvalue fp) (tell fp + length data)).

(** [fp.read()]: everything that is left. *)
Definition read_all : M (list byte) :=
  fun fp =>
    let data := unread fp in
    Ok (data, mkBytesIO (getvalue fp) (tell fp + length data)).

(** ** struct.unpack, big-endian formats over 'H' and 'I' *)

Inductive fmt : Type := fmt_H | fmt_I.

Definition fmt_size (c : fmt) : nat :=
  match c with fmt_H => 2 | fmt_I => 4 end.

Fixpoint calcsize (f : list fmt) : nat :=
  match f with
  | [] => 0
  | c :: f' => fmt_size c + calcsize f'
  end.

Fixpoint be_uint (acc : Z) (b : list byte) : Z :=
  match b with
  | [] => acc
  | x :: b' => be_uint (acc * 256 + Z.of_N (Byte.to_N x)) b'
  end.

Fixpoint unpack_from (f : list fmt) (b : list byte) : list Z :=
  match f with
  | [] => []
  | c :: f' => be_uint 0 (firstn (fmt_size c) b) :: unpack_from f' (skipn (fmt_size c) b)
  end.

Definition unpack (f : list fmt) (b : list byte) : outcome (list Z) :=
  if length b =? calcsize f then Ok (unpack_from f b) else Raise struct_error.

(** [struct.unpack(f, fp.read(n))] *)
Definition read_unpack (f : list fmt) (n : nat) : M (list Z) :=
  b <- read n ;; lift (unpack f b).

(** [t[0]] on the tuple [struct.unpack] returns. *)
Definition item0 (t : list Z) : outcome Z :=
  match t with
  | x :: _ => Ok x
  | [] => Raise IndexError
  end.

(** [struct.unpack(">H", fp.read(2))[0]] *)
Definition read_H : M Z :=
  t <- read_unpack [fmt_H] 2 ;; lift (item0 t).

(** ** list subscription *)

(** [lst[i]]: a negative [i] is taken from the end. *)
Definition getitem {A} (lst : list A) (i : Z) : outcome A :=
  let n := Z.of_nat (length lst) in
  let j := (if i <? 0 then i + n else i)%Z in
  if ((j <? 0) || (n <=? j))%Z then Raise IndexError
  else match nth_error lst (Z.to_nat j) with
       | Some x => Ok x
       | None => Raise IndexError
       end.

(** ** Loops *)

(** [acc = []; for _ in range(n): acc.append(body())] *)
Fixpoint for_range {A} (n : nat) (body : M A) (acc : list A) : M (list A) :=
  match n with
  | O => ret acc
  | S n' => x <- body ;; for_range n' body (acc ++ [x])
  end.

(** ** attribute_helpers.py *)

Record LineNumber : Type := mkLineNumber {
  ln_start_pc : Z;
  ln_line_number : Z
}.

Record LocalVariable : Type := mkLocalVariable {
  lv_start_pc : Z;
  lv_line_number : Z;
  lv_name_index : Z;
  lv_descriptor_index : Z;
  lv_index : Z
}.

Record LocalVariableType : Type := mkLocalVariableType {
  lvt_start_pc : Z;
  lvt_line_number : Z;
  lvt_name_index : Z;
  lvt_signature_index : Z;
  lvt_index : Z
}.

(** [LineNumber] applied to the fields of an unpacked tuple. *)
Definition LineNumber_star (t : list Z) : outcome LineNumber :=
  match t with
  | [start_pc; line_number] => Ok (mkLineNumber start_pc line_number)
  | _ => Raise TypeError
  end.

(** [LocalVariable] applied to the fields of an unpacked tuple. *)
Definition LocalVariable_star (t : list Z) : outcome LocalVariable :=
  match t with
  | [start_pc; line_number; name_index; descriptor_index; index] =>
      Ok (mkLocalVariable start_pc line_number name_index descriptor_index index)
  | _ => Raise TypeError
  end.

(** [LocalVariableType] applied to the fields of an unpacked tuple. *)
Definition LocalVariableType_star (t : list Z) : outcome LocalVariableType :=
  match t with
  | [start_pc; line_number; name_index; signature_index; index] =>
      Ok (mkLocalVariableType start_pc line_number name_index signature_index index)
  | _ => Raise TypeError
  end.

(** ** Vocabulary for the properties of cursor computations *)

(** The cursor [n] bytes further on. *)
Definition advance (fp : BytesIO) (n : nat) : BytesIO :=
  mkBytesIO (getvalue fp) (tell fp + n).

(** [c] sees only the unread bytes, and all it does to the cursor is move
    it forward. *)
Definition local {A} (c : M A) : Prop :=
  forall fp1 fp2, unread fp1 = unread fp2 ->
    match c fp1 with
    | Ok (a, fp1') => exists n, fp1' = advance fp1 n /\ c fp2 = Ok (a, advance fp2 n)
    | Raise e => c fp2 = Raise e
    | OutOfFuel => c fp2 = OutOfFuel
    end.

(** Wherever the unread bytes start with [bytes], [c] returns [a] and
    leaves the cursor right behind [bytes]. *)
Definition decodes {A} (c : M A) (bytes : list byte) (a : A) : Prop :=
  forall fp rest, unread fp = bytes ++ rest ->
    c fp = Ok (a, advance fp (length bytes)).

(** A success of [c] at [fp1] is not affected by bytes appended to the
    buffer. *)
Definition stable_at {A} (c : M A) (fp1 : BytesIO) : Prop :=
  forall fp2 extra a fp1',
    unread fp2 = unread fp1 ++ extra -> c fp1 = Ok (a, fp1') ->
    exists n, n <= remaining fp1 /\ fp1' = advance fp1 n /\
              c fp2 = Ok (a, advance fp2 n).

(** A success of [c] at [fp1] stays a success when bytes are appended to
    the buffer; it is the same success unless [c] had read up to the end. *)
Definition semistable_at {A} (c : M A) (fp1 : BytesIO) : Prop :=
  forall fp2 extra a fp1',
    unread fp2 = unread fp1 ++ extra -> c fp1 = Ok (a, fp1') ->
    exists n, n <= remaining fp1 /\ fp1' = advance fp1 n /\
      (c fp2 = Ok (a, advance fp2 n) \/
       (n = remaining fp1 /\ exists a' fp2', c fp2 = Ok (a', fp2'))).

(** A success of [c] at [fp1] stays a success when bytes are appended to
    the buffer. *)
Definition extensible_at {A} (c : M A) (fp1 : BytesIO) : Prop :=
  forall fp2 extra a fp1',
    unread fp2 = unread fp1 ++ extra -> c fp1 = Ok (a, fp1') ->
    exists a' fp2', c fp2 = Ok (a', fp2').

(** [parser] reads a 2-byte count and then that many entries with [entry],
    and [build]s its result from the entries in the order they were read:
    whenever the count is the number of chunks and [entry] decodes the i-th
    chunk to the i-th item, [parser] returns exactly those items. *)
Definition table_of {A B} (parser : M B) (entry : M A) (build : list A -> B) : Prop :=
  forall cnt chunks items,
    length cnt = 2 ->
    be_uint 0 cnt = Z.of_nat (length chunks) ->
    Forall2 (decodes entry) chunks items ->
    decodes parser (cnt ++ concat chunks) (build items) /\
    Z.of_nat (length items) = be_uint 0 cnt.

(** [c] never runs out of recursion fuel. *)
Definition fueled {A} (c : M A) : Prop := forall fp, c fp <> OutOfFuel.

(** The [attribute_info] header at the cursor, as [Attribute.parse] unpacks
    it: [name_index] and [attribute_length]. *)
Definition header (fp : BytesIO) : outcome (list Z) :=
  unpack [fmt_H; fmt_I] (firstn 6 (unread fp)).

(** The bytes [fp.read(attribute_length)] returns after the header. *)
Definition body (fp : BytesIO) (attribute_length : Z) : list byte :=
  firstn (Z.to_nat attribute_length) (skipn 6 (unread fp)).

(** ** An instance for worked inputs *)

(** A constant pool whose entries are all UTF-8 constants: an entry is its
    text, and that text is its [value]. *)
Definition utf8_value (c : string) : option string := Some c.

(** Access flags kept as the raw integer. *)
Definition raw_flags (flags : Z) : Z := flags.

(** ** attributes.py *)

Section Attributes.

(** Modelled from the spec: the constant-pool entry classes and the flags
    module are imported from files that are not among the sources.  A
    constant-pool entry is an opaque resolved value; [value c] is the text
    that [f"{c.value}"] formats to, and [None] when the entry has no [value]
    attribute.  [InnerClassAccessFlags] is a pure, total function from the raw
    2-byte integer to a flag set. *)
Variable Constant : Type.
Variable value : Constant -> option string.
Variable AccessFlags : Type.
Variable InnerClassAccessFlags : Z -> AccessFlags.

Record InnerClass : Type := mkInnerClass {
  inner_class_info : Constant;
  outer_class_info : Constant;
  inner_name : Constant;
  inner_class_access_flags : AccessFlags
}.

#[warnings="-register-all"]
Inductive Attribute : Type :=
| UnknownAttribute (name : Constant) (info : list byte)
| Attribute_ConstantValue (name : Constant) (constant_value : Constant)
| Attribute_Code (name : Constant) (max_stack max_locals : Z) (code : list byte)
    (exception_table : list (list Z)) (attributes : list Attribute)
| Attribute_Exceptions (name : Constant) (exception_index_table : list Z)
| Attribute_InnerClasses (name : Constant) (inner_classes : list InnerClass)
| Attribute_EnclosingMethod (name : Constant) (class_ method : Constant)
| Attribute_Synthetic (name : Constant)
| Attribute_Signature (name : Constant) (signature : Constant)
| Attribute_SourceFile (name : Constant) (sourcefile : Constant)
| Attribute_SourceDebugExtension (name : Constant) (debug_extension : list byte)
| Attribute_LineNumberTable (name : Constant) (line_number_table : list LineNumber)
| Attribute_LocalVariableTable (name : Constant) (local_variable_table : list LocalVariable)
| Attribute_LocalVariableTypeTable (name : Constant)
    (local_variable_type_table : list LocalVariableType)
| Attribute_Deprecated (name : Constant)
| Attribute_BootstrapMethods (name : Constant)
    (bootstrap_methods : list (Constant * list Constant))
| Attribute_ModulePackages (name : Constant) (package_index_table : list Constant)
| Attribute_ModuleMainClass (name : Constant) (main_class : Constant)
| Attribute_NestHost (name : Constant) (host_class : Constant).

(** [self.name] *)
Definition attr_name (a : Attribute) : Constant :=
  match a with
  | UnknownAttribute name _ => name
  | Attribute_ConstantValue name _ => name
  | Attribute_Code name _ _ _ _ _ => name
  | Attribute_Exceptions name _ => name
  | Attribute_InnerClasses name _ => name
  | Attribute_EnclosingMethod name _ _ => name
  | Attribute_Synthetic name => name
  | Attribute_Signature name _ => name
  | Attribute_SourceFile name _ => name
  | Attribute_SourceDebugExtension name _ => name
  | Attribute_LineNumberTable name _ => name
  | Attribute_LocalVariableTable name _ => name
  | Attribute_LocalVariableTypeTable name _ => name
  | Attribute_Deprecated name => name
  | Attribute_BootstrapMethods name _ => name
  | Attribute_ModulePackages name _ => name
  | Attribute_ModuleMainClass name _ => name
  | Attribute_NestHost name _ => name
  end.

(** The classes [Attribute.__subclasses__()] lists, in definition order. *)
Inductive Subclass : Type :=
| cls_UnknownAttribute
| cls_ConstantValue
| cls_Code
| cls_Exceptions
| cls_InnerClasses
| cls_EnclosingMethod
| cls_Synthetic
| cls_Signature
| cls_SourceFile
| cls_SourceDebugExtension
| cls_LineNumberTable
| cls_LocalVariableTable
| cls_LocalVariableTypeTable
| cls_Deprecated
| cls_BootstrapMethods
| cls_ModulePackages
| cls_ModuleMainClass
| cls_NestHost.

Definition __subclasses__ : list Subclass :=
  [ cls_UnknownAttribute; cls_ConstantValue; cls_Code; cls_Exceptions;
    cls_InnerClasses; cls_EnclosingMethod; cls_Synthetic; cls_Signature;
    cls_SourceFile; cls_SourceDebugExtension; cls_LineNumberTable;
    cls_LocalVariableTable; cls_LocalVariableTypeTable; cls_Deprecated;
    cls_BootstrapMethods; cls_ModulePackages; cls_ModuleMainClass;
    cls_NestHost ].

Definition __name__ (c : Subclass) : string :=
  match c with
  | cls_UnknownAttribute => "UnknownAttribute"
  | cls_ConstantValue => "Attribute_ConstantValue"
  | cls_Code => "Attribute_Code"
  | cls_Exceptions => "Attribute_Exceptions"
  | cls_InnerClasses => "Attribute_InnerClasses"
  | cls_EnclosingMethod => "Attribute_EnclosingMethod"
  | cls_Synthetic => "Attribute_Synthetic"
  | cls_Signature => "Attribute_Signature"
  | cls_SourceFile => "Attribute_SourceFile"
  | cls_SourceDebugExtension => "Attribute_SourceDebugExtension"
  | cls_LineNumberTable => "Attribute_LineNumberTable"
  | cls_LocalVariableTable => "Attribute_LocalVariableTable"
  | cls_LocalVariableTypeTable => "Attribute_LocalVariableTypeTable"
  | cls_Deprecated => "Attribute_Deprecated"
  | cls_BootstrapMethods => "Attribute_BootstrapMethods"
  | cls_ModulePackages => "Attribute_ModulePackages"
  | cls_ModuleMainClass => "Attribute_ModuleMainClass"
  | cls_NestHost => "Attribute_NestHost"
  end%string.

(** [type(a).__name__] *)
Definition class_of (a : Attribute) : Subclass :=
  match a with
  | UnknownAttribute _ _ => cls_UnknownAttribute
  | Attribute_ConstantValue _ _ => cls_ConstantValue
  | Attribute_Code _ _ _ _ _ _ => cls_Code
  | Attribute_Exceptions _ _ => cls_Exceptions
  | Attribute_InnerClasses _ _ => cls_InnerClasses
  | Attribute_EnclosingMethod _ _ _ => cls_EnclosingMethod
  | Attribute_Synthetic _ => cls_Synthetic
  | Attribute_Signature _ _ => cls_Signature
  | Attribute_SourceFile _ _ => cls_SourceFile
  | Attribute_SourceDebugExtension _ _ => cls_SourceDebugExtension
  | Attribute_LineNumberTable _ _ => cls_LineNumberTable
  | Attribute_LocalVariableTable _ _ => cls_LocalVariableTable
  | Attribute_LocalVariableTypeTable _ _ => cls_LocalVariableTypeTable
  | Attribute_Deprecated _ => cls_Deprecated
  | Attribute_BootstrapMethods _ _ => cls_BootstrapMethods
  | Attribute_ModulePackages _ _ => cls_ModulePackages
  | Attribute_ModuleMainClass _ _ => cls_ModuleMainClass
  | Attribute_NestHost _ _ => cls_NestHost
  end.

(** *** The variant decoders, [Attribute_X._parse(name, fp, constant_pool)] *)

Definition Attribute_ConstantValue_parse (name : Constant) (constant_pool : list Constant)
  : M Attribute :=
  constant_value_index <- read_H ;;
  constant_value <- lift (getitem constant_pool (constant_value_index - 1)) ;;
  ret (Attribute_ConstantValue name constant_value).

Definition Attribute_Code_parse (Attribute_parse : list Constant -> M Attribute)
  (name : Constant) (constant_pool : list Constant) : M Attribute :=
  t <- read_unpack [fmt_H; fmt_H; fmt_I] 8 ;;
  match t with
  | [max_stack; max_locals; code_length] =>
      code <- read (Z.to_nat code_length) ;;
      exception_table_length <- read_H ;;
      exception_table <-
        for_range (Z.to_nat exception_table_length)
          (read_unpack [fmt_H; fmt_H; fmt_H; fmt_H] 8) [] ;;
      attributes_count <- read_H ;;
      attributes <-
        for_range (Z.to_nat attributes_count) (Attribute_parse constant_pool) [] ;;
      ret (Attribute_Code name max_stack max_locals code exception_table attributes)
  | _ => lift (Raise ValueError)
  end.

Definition Attribute_Exceptions_parse (name : Constant) (constant_pool : list Constant)
  : M Attribute :=
  number_of_exceptions <- read_H ;;
  exception_index_table <- for_range (Z.to_nat number_of_exceptions) read_H [] ;;
  ret (Attribute_Exceptions name exception_index_table).

Definition InnerClasses_entry (constant_pool : list Constant) : M InnerClass :=
  t <- read_unpack [fmt_H; fmt_H; fmt_H; fmt_H] 8 ;;
  match t with
  | [inner_class_info_index; outer_class_info_index; inner_name_index;
     inner_class_access_flags] =>
      c1 <- lift (getitem constant_pool (inner_class_info_index - 1)) ;;
      c2 <- lift (getitem constant_pool (outer_class_info_index - 1)) ;;
      c3 <- lift (getitem constant_pool (inner_name_index - 1)) ;;
      ret (mkInnerClass c1 c2 c3 (InnerClassAccessFlags inner_class_access_flags))
  | _ => lift (Raise ValueError)
  end.

Definition Attribute_InnerClasses_parse (name : Constant) (constant_pool : list Constant)
  : M Attribute :=
  number_of_classes <- read_H ;;
  inner_classes <-
    for_range (Z.to_nat number_of_classes) (InnerClasses_entry constant_pool) [] ;;
  ret (Attribute_InnerClasses name inner_classes).

Definition Attribute_EnclosingMethod_parse (name : Constant) (constant_pool : list Constant)
  : M Attribute :=
  t <- read_unpack [fmt_H; fmt_H] 4 ;;
  match t with
  | [class_index; method_index] =>
      class_ <- lift (getitem constant_pool (class_index - 1)) ;;
      method <- lift (getitem constant_pool (method_index - 1)) ;;
      ret (Attribute_EnclosingMethod name class_ method)
  | _ => lift (Raise ValueError)
  end.

Definition Attribute_Synthetic_parse (name : Constant) (constant_pool : list Constant)
  : M Attribute :=
  ret (Attribute_Synthetic name).

Definition Attribute_Signature_parse (name : Constant) (constant_pool : list Constant)
  : M Attribute :=
  signature_index <- read_H ;;
  signature <- lift (getitem constant_pool (signature_index - 1)) ;;
  ret (Attribute_Signature name signature).

Definition Attribute_SourceFile_parse (name : Constant) (constant_pool : list Constant)
  : M Attribute :=
  sourcefile_index <- read_H ;;
  sourcefile <- lift (getitem constant_pool (sourcefile_index - 1)) ;;
  ret (Attribute_SourceFile name sourcefile).

Definition Attribute_SourceDebugExtension_parse (name : Constant)
  (constant_pool : list Constant) : M Attribute :=
  debug_extension <- read_all ;;
  ret (Attribute_SourceDebugExtension name debug_extension).

Definition LineNumberTable_entry : M LineNumber :=
  t <- read_unpack [fmt_H; fmt_H] 4 ;; lift (LineNumber_star t).

Definition Attribute_LineNumberTable_parse (name : Constant) (constant_pool : list Constant)
  : M Attribute :=
  line_number_table_length <- read_H ;;
  line_number_table <-
    for_range (Z.to_nat line_number_table_length) LineNumberTable_entry [] ;;
  ret (Attribute_LineNumberTable name line_number_table).

Definition LocalVariableTable_entry : M LocalVariable :=
  t <- read_unpack [fmt_H; fmt_H; fmt_H; fmt_H; fmt_H] 10 ;; lift (LocalVariable_star t).

Definition Attribute_LocalVariableTable_parse (name : Constant)
  (constant_pool : list Constant) : M Attribute :=
  local_variable_table_length <- read_H ;;
  local_variable_table <-
    for_range (Z.to_nat local_variable_table_length) LocalVariableTable_entry [] ;;
  ret (Attribute_LocalVariableTable name local_variable_table).

Definition LocalVariableTypeTable_entry : M LocalVariableType :=
  t <- read_unpack [fmt_H; fmt_H; fmt_H; fmt_H; fmt_H] 10 ;;
  lift (LocalVariableType_star t).

Definition Attribute_LocalVariableTypeTable_parse (name : Constant)
  (constant_pool : list Constant) : M Attribute :=
  local_variable_type_table_length <- read_H ;;
  local_variable_type_table <-
    for_range (Z.to_nat local_variable_type_table_length)
      LocalVariableTypeTable_entry [] ;;
  ret (Attribute_LocalVariableTypeTable name local_variable_type_table).

Definition Attribute_Deprecated_parse (name : Constant) (constant_pool : list Constant)
  : M Attribute :=
  ret (Attribute_Deprecated name).

(** One [constant_pool[struct.unpack(">H", fp.read(2))[0] - 1]]. *)
Definition read_constant (constant_pool : list Constant) : M Constant :=
  index <- read_H ;; lift (getitem constant_pool (index - 1)).

Definition BootstrapMethods_entry (constant_pool : list Constant)
  : M (Constant * list Constant) :=
  t <- read_unpack [fmt_H; fmt_H] 4 ;;
  match t with
  | [bootstrap_method_ref; num_bootstrap_arguments] =>
      bootstrap_arguments <-
        for_range (Z.to_nat num_bootstrap_arguments) (read_constant constant_pool) [] ;;
      method <- lift (getitem constant_pool (bootstrap_method_ref - 1)) ;;
      ret (method, bootstrap_arguments)
  | _ => lift (Raise ValueError)
  end.

Definition Attribute_BootstrapMethods_parse (name : Constant)
  (constant_pool : list Constant) : M Attribute :=
  num_bootstrap_methods <- read_H ;;
  bootstrap_methods <-
    for_range (Z.to_nat num_bootstrap_methods) (BootstrapMethods_entry constant_pool) [] ;;
  ret (Attribute_BootstrapMethods name bootstrap_methods).

Definition Attribute_ModulePackages_parse (name : Constant) (constant_pool : list Constant)
  : M Attribute :=
  package_count <- read_H ;;
  package_index_table <-
    for_range (Z.to_nat package_count) (read_constant constant_pool) [] ;;
  ret (Attribute_ModulePackages name package_index_table).

Definition Attribute_ModuleMainClass_parse (name : Constant) (constant_pool : list Constant)
  : M Attribute :=
  main_class_index <- read_H ;;
  main_class <- lift (getitem constant_pool (main_class_index - 1)) ;;
  ret (Attribute_ModuleMainClass name main_class).

Definition Attribute_NestHost_parse (name : Constant) (constant_pool : list Constant)
  : M Attribute :=
  host_class_index <- read_H ;;
  host_class <- lift (getitem constant_pool (host_class_index - 1)) ;;
  ret (Attribute_NestHost name host_class).

(** [subclass._parse(name, fp, constant_pool)].  [UnknownAttribute._parse]
    takes two arguments, so the three-argument call would raise [TypeError];
    the dispatch never selects it. *)
Definition _parse (Attribute_parse : list Constant -> M Attribute) (subclass : Subclass)
  : Constant -> list Constant -> M Attribute :=
  match subclass with
  | cls_UnknownAttribute => fun _ _ => lift (Raise TypeError)
  | cls_ConstantValue => Attribute_ConstantValue_parse
  | cls_Code => Attribute_Code_parse Attribute_parse
  | cls_Exceptions => Attribute_Exceptions_parse
  | cls_InnerClasses => Attribute_InnerClasses_parse
  | cls_EnclosingMethod => Attribute_EnclosingMethod_parse
  | cls_Synthetic => Attribute_Synthetic_parse
  | cls_Signature => Attribute_Signature_parse
  | cls_SourceFile => Attribute_SourceFile_parse
  | cls_SourceDebugExtension => Attribute_SourceDebugExtension_parse
  | cls_LineNumberTable => Attribute_LineNumberTable_parse
  | cls_LocalVariableTable => Attribute_LocalVariableTable_parse
  | cls_LocalVariableTypeTable => Attribute_LocalVariableTypeTable_parse
  | cls_Deprecated => Attribute_Deprecated_parse
  | cls_BootstrapMethods => Attribute_BootstrapMethods_parse
  | cls_ModulePackages => Attribute_ModulePackages_parse
  | cls_ModuleMainClass => Attribute_ModuleMainClass_parse
  | cls_NestHost => Attribute_NestHost_parse
  end.

(** The loop of [Attribute.parse]: the first subclass whose [__name__] is
    [f"Attribute_{name.value}"]. *)
Definition lookup_subclass (v : string) : option Subclass :=
  find (fun subclass => String.eqb (__name__ subclass) (String.append "Attribute_" v))
    __subclasses__.

(** The body of [Attribute.parse(fp, constant_pool)], with the recursive
    reference to [Attribute.parse] (made by [Attribute_Code._parse]) as a
    parameter.  The sub-cursor [io.BytesIO(info)] is local to the call: its
    final position is dropped. *)
Definition parse_body (Attribute_parse : list Constant -> M Attribute)
  (constant_pool : list Constant) : M Attribute :=
  t <- read_unpack [fmt_H; fmt_I] 6 ;;
  match t with
  | [name_index; attribute_length] =>
      name <- lift (getitem constant_pool (name_index - 1)) ;;
      info <- read (Z.to_nat attribute_length) ;;
      match value name with
      | None => lift (Raise AttributeError)
      | Some v =>
          match lookup_subclass v with
          | Some subclass =>
              lift (run (_parse Attribute_parse subclass name constant_pool)
                      (BytesIO_new info))
          | None => ret (UnknownAttribute name info)
          end
      end
  | _ => lift (Raise ValueError)
  end.

Fixpoint Attribute_parse_fuel (fuel : nat) (constant_pool : list Constant) : M Attribute :=
  match fuel with
  | O => fun _ => OutOfFuel
  | S fuel' => parse_body (Attribute_parse_fuel fuel') constant_pool
  end.

(** [Attribute.parse(fp, constant_pool)] *)
Definition Attribute_parse (constant_pool : list Constant) : M Attribute :=
  fun fp => Attribute_parse_fuel (S (remaining fp)) constant_pool fp.

(** The names [Attribute.parse] dispatches on: the [X] of every subclass
    called [Attribute_X]. *)
Definition recognized : list string :=
  [ "ConstantValue"; "Code"; "Exceptions"; "InnerClasses"; "EnclosingMethod";
    "Synthetic"; "Signature"; "SourceFile"; "SourceDebugExtension";
    "LineNumberTable"; "LocalVariableTable"; "LocalVariableTypeTable";
    "Deprecated"; "BootstrapMethods"; "ModulePackages"; "ModuleMainClass";
    "NestHost" ]%string.

(** ** Vocabulary for the further properties *)

(** An unsigned 16-bit value. *)
Definition u16 (z : Z) : Prop := (0 <= z < 65536)%Z.

(** The first [n] consecutive pieces of [w] bytes of [b]. *)
Fixpoint chunks (w n : nat) (b : list byte) : list (list byte) :=
  match n with
  | O => []
  | S n' => firstn w b :: chunks w n' (skipn w b)
  end.

(** The records as functions of the bytes of one table entry. *)
Definition LineNumber_of_bytes (c : list byte) : LineNumber :=
  mkLineNumber (be_uint 0 (firstn 2 c)) (be_uint 0 (firstn 2 (skipn 2 c))).

Definition LocalVariable_of_bytes (c : list byte) : LocalVariable :=
  mkLocalVariable
    (be_uint 0 (firstn 2 c))
    (be_uint 0 (firstn 2 (skipn 2 c)))
    (be_uint 0 (firstn 2 (skipn 2 (skipn 2 c))))
    (be_uint 0 (firstn 2 (skipn 2 (skipn 2 (skipn 2 c)))))
    (be_uint 0 (firstn 2 (skipn 2 (skipn 2 (skipn 2 (skipn 2 c)))))).

Definition LocalVariableType_of_bytes (c : list byte) : LocalVariableType :=
  mkLocalVariableType
    (be_uint 0 (firstn 2 c))
    (be_uint 0 (firstn 2 (skipn 2 c)))
    (be_uint 0 (firstn 2 (skipn 2 (skipn 2 c))))
    (be_uint 0 (firstn 2 (skipn 2 (skipn 2 (skipn 2 c)))))
    (be_uint 0 (firstn 2 (skipn 2 (skipn 2 (skipn 2 (skipn 2 c)))))).

(** [entry] takes the next [w] bytes and returns [dec] of them; with fewer
    than [w] bytes left it raises [struct.error]. *)
Definition fixed_entry {A} (entry : M A) (w : nat) (dec : list byte -> A) : Prop :=
  forall fp,
    entry fp =
      if w <=? remaining fp
      then Ok (dec (firstn w (unread fp)), advance fp w)
      else Raise struct_error.

(** [parser] without its loop: with the 2-byte count [n] and [n] entries of
    [w] bytes present it returns [build] of the decoded entries and stands
    right behind them; with anything less it raises [struct.error]. *)
Definition fixed_table {A B} (parser : M B) (w : nat) (dec : list byte -> A)
    (build : list A -> B) : Prop :=
  forall fp,
    parser fp =
      if 2 <=? remaining fp
      then
        let n := Z.to_nat (be_uint 0 (firstn 2 (unread fp))) in
        if 2 + n * w <=? remaining fp
        then Ok (build (map dec (chunks w n (skipn 2 (unread fp)))),
                 advance fp (2 + n * w))
        else Raise struct_error
      else Raise struct_error.

(** Two runs of [parser] that return the same value have consumed the same
    bytes. *)
Definition lossless {B} (parser : M B) : Prop :=
  forall fp1 fp2 a fp1' fp2',
    parser fp1 = Ok (a, fp1') -> parser fp2 = Ok (a, fp2') ->
    exists k, fp1' = advance fp1 k /\ fp2' = advance fp2 k /\
              firstn k (unread fp1) = firstn k (unread fp2).

(** [parser] reads one 2-byte constant-pool index and [build]s its result
    from the entry [constant_pool[index - 1]]: fewer than two bytes raise
    [struct.error]; an index from 1 to the length of the pool gives the entry
    at that 1-based place; a larger index raises [IndexError]; index 0 gives
    the last entry of the pool, and raises [IndexError] on an empty pool. *)
Definition one_index (parser : list Constant -> M Attribute)
    (build : Constant -> Attribute) : Prop :=
  forall cp fp,
    (remaining fp < 2 -> parser cp fp = Raise struct_error) /\
    (2 <= remaining fp ->
     let index := be_uint 0 (firstn 2 (unread fp)) in
     (forall c, (1 <= index)%Z -> nth_error cp (Z.to_nat (index - 1)) = Some c ->
        parser cp fp = Ok (build c, advance fp 2)) /\
     ((Z.of_nat (length cp) < index)%Z -> parser cp fp = Raise IndexError) /\
     (forall l x, index = 0%Z -> cp = l ++ [x] ->
        parser cp fp = Ok (build x, advance fp 2)) /\
     (index = 0%Z -> cp = [] -> parser cp fp = Raise IndexError)).

(** Every constant-pool entry an attribute holds, its name included and
    those of the attributes nested in it. *)
Fixpoint constants_of (a : Attribute) : list Constant :=
  match a with
  | UnknownAttribute name _ => [name]
  | Attribute_ConstantValue name constant_value => [name; constant_value]
  | Attribute_Code name _ _ _ _ attributes => name :: flat_map constants_of attributes
  | Attribute_Exceptions name _ => [name]
  | Attribute_InnerClasses name inner_classes =>
      name :: flat_map (fun c => [inner_class_info c; outer_class_info c; inner_name c])
                inner_classes
  | Attribute_EnclosingMethod name class_ method => [name; class_; method]
  | Attribute_Synthetic name => [name]
  | Attribute_Signature name signature => [name; signature]
  | Attribute_SourceFile name sourcefile => [name; sourcefile]
  | Attribute_SourceDebugExtension name _ => [name]
  | Attribute_LineNumberTable name _ => [name]
  | Attribute_LocalVariableTable name _ => [name]
  | Attribute_LocalVariableTypeTable name _ => [name]
  | Attribute_Deprecated name => [name]
  | Attribute_BootstrapMethods name bootstrap_methods =>
      name :: flat_map (fun m => fst m :: snd m) bootstrap_methods
  | Attribute_ModulePackages name package_index_table => name :: package_index_table
  | Attribute_ModuleMainClass name main_class => [name; main_class]
  | Attribute_NestHost name host_class => [name; host_class]
  end.

(** The exceptions the decoders are written to meet: [struct.error] on a
    short read, [IndexError] on an index outside the pool, and
    [AttributeError] where the pool holds an entry without a [value]. *)
Definition expected (cp : list Constant) (e : exn) : Prop :=
  e = struct_error \/ e = IndexError \/
  (e = AttributeError /\ exists c, In c cp /\ value c = None).

(** The exceptions of the decoders that make no recursive call. *)
Definition plain (e : exn) : Prop := e = struct_error \/ e = IndexError.

(** *** [__repr__] in attribute_helpers.py *)

(** [f"{n}"] for an integer [n]: its decimal digits, after a minus sign
    when negative. *)
Definition str_int (n : Z) : string :=
  DecimalString.NilZero.string_of_int (Z.to_int n).

Definition LineNumber_repr (self : LineNumber) : string :=
  ("LineNumber(start_pc=" ++ str_int (ln_start_pc self) ++
   ", line_number=" ++ str_int (ln_line_number self) ++ ")")%string.

Definition LocalVariable_repr (self : LocalVariable) : string :=
  ("LocalVariable(start_pc=" ++ str_int (lv_start_pc self) ++
   ", line_number=" ++ str_int (lv_line_number self) ++
   ", name_index=" ++ str_int (lv_name_index self) ++
   ", descriptor_index=" ++ str_int (lv_descriptor_index self) ++
   ", index=" ++ str_int (lv_index self) ++ ")")%string.

Definition LocalVariableType_repr (self : LocalVariableType) : string :=
  ("LocalVariableType(start_pc=" ++ str_int (lvt_start_pc self) ++
   ", line_number=" ++ str_int (lvt_line_number self) ++
   ", name_index=" ++ str_int (lvt_name_index self) ++
   ", signature_index=" ++ str_int (lvt_signature_index self) ++
   ", index=" ++ str_int (lvt_index self) ++ ")")%string.

(** The character [a] does not occur in [s]. *)
Fixpoint free_of (a : Ascii.ascii) (s : string) : Prop :=
  match s with
  | EmptyString => True
  | String b s' => b <> a /\ free_of a s'
  end.

(** How deep Code attributes are nested in [a]: 0 for an attribute that is
    not a Code attribute. *)
Fixpoint Code_depth (a : Attribute) : nat :=
  match a with
  | Attribute_Code _ _ _ _ _ attributes => S (list_max (map Code_depth attributes))
  | _ => 0
  end.

(** ** The cursor monad *)

Lemma bind_Ok_inv {A B} (c : M A) (k : A -> M B) fp b fp2 :
  bind c k fp = Ok (b, fp2) ->
  exists a fp1, c fp = Ok (a, fp1) /\ k a fp1 = Ok (b, fp2).
Proof.
  unfold bind. destruct (c fp) as [[a fp1]|e|]; try discriminate.
  intros H. exists a, fp1. split; [reflexivity|exact H].
Qed.

Lemma bind_Ok {A B} {c : M A} (k : A -> M B) {fp a fp1} :
  c fp = Ok (a, fp1) -> bind c k fp = k a fp1.
Proof. unfold bind. intros ->. reflexivity. Qed.

Lemma lift_Ok_inv {A} (r : outcome A) fp a fp' :
  lift r fp = Ok (a, fp') -> r = Ok a /\ fp' = fp.
Proof.
  unfold lift. destruct r; try discriminate.
  intros H. inversion H. split; reflexivity.
Qed.

Lemma ret_Ok_inv {A} (x : A) fp a fp' :
  ret x fp = Ok (a, fp') -> a = x /\ fp' = fp.
Proof. unfold ret. intros H. inversion H. split; reflexivity. Qed.

Lemma run_Ok_inv {A} (c : M A) fp a :
  run c fp = Ok a -> exists fp', c fp = Ok (a, fp').
Proof.
  unfold run. destruct (c fp) as [[a' fp']|e|]; try discriminate.
  intros H. inversion H. subst. exists fp'. reflexivity.
Qed.

(** ** Cursors *)

Lemma advance_0 fp : advance fp 0 = fp.
Proof. destruct fp. unfold advance. simpl. rewrite Nat.add_0_r. reflexivity. Qed.

Lemma advance_advance fp n m : advance (advance fp n) m = advance fp (n + m).
Proof. unfold advance. simpl. rewrite Nat.add_assoc. reflexivity. Qed.

Lemma unread_advance fp n : unread (advance fp n) = skipn n (unread fp).
Proof.
  unfold unread, advance. simpl. rewrite skipn_skipn.
  rewrite (Nat.add_comm n). reflexivity.
Qed.

Lemma remaining_advance fp n : remaining (advance fp n) = remaining fp - n.
Proof. unfold remaining. rewrite unread_advance. apply length_skipn. Qed.

Lemma unread_new b : unread (BytesIO_new b) = b.
Proof. reflexivity. Qed.

Lemma read_eq n fp :
  read n fp = Ok (firstn n (unread fp), advance fp (length (firstn n (unread fp)))).
Proof. reflexivity. Qed.

Lemma read_all_eq fp :
  read_all fp = Ok (unread fp, advance fp (length (unread fp))).
Proof. reflexivity. Qed.

Lemma unpack_Ok_inv f b t :
  unpack f b = Ok t -> length b = calcsize f /\ t = unpack_from f b.
Proof.
  unfold unpack. destruct (Nat.eqb_spec (length b) (calcsize f)); try discriminate.
  intros H. inversion H. split; [assumption|reflexivity].
Qed.

Lemma unpack_eq f b : length b = calcsize f -> unpack f b = Ok (unpack_from f b).
Proof. unfold unpack. intros ->. rewrite Nat.eqb_refl. reflexivity. Qed.

(** A successful [struct.unpack(f, fp.read(n))] consumed exactly the
    [calcsize f] bytes it decoded. *)
Lemma read_unpack_Ok_inv f n fp t fp' :
  read_unpack f n fp = Ok (t, fp') ->
  length (firstn n (unread fp)) = calcsize f /\
  t = unpack_from f (firstn n (unread fp)) /\
  fp' = advance fp (calcsize f).
Proof.
  unfold read_unpack. intros H.
  apply bind_Ok_inv in H. destruct H as (b & fp1 & Hr & Hu).
  rewrite read_eq in Hr. inversion Hr; subst; clear Hr.
  apply lift_Ok_inv in Hu. destruct Hu as [Hu ->].
  apply unpack_Ok_inv in Hu. destruct Hu as [Hl ->].
  rewrite Hl. repeat split; reflexivity || assumption.
Qed.

Lemma read_unpack_eq f fp :
  calcsize f <= remaining fp ->
  read_unpack f (calcsize f) fp =
    Ok (unpack_from f (firstn (calcsize f) (unread fp)), advance fp (calcsize f)).
Proof.
  intros Hle. unfold read_unpack.
  assert (Hl : length (firstn (calcsize f) (unread fp)) = calcsize f).
  { rewrite length_firstn. unfold remaining in Hle. lia. }
  rewrite (bind_Ok _ (read_eq _ _)). rewrite Hl.
  unfold lift. rewrite (unpack_eq _ _ Hl). reflexivity.
Qed.

Lemma read_unpack_short f fp :
  remaining fp < calcsize f ->
  read_unpack f (calcsize f) fp = Raise struct_error.
Proof.
  intros Hlt. unfold read_unpack, bind. rewrite read_eq. unfold lift, unpack.
  destruct (Nat.eqb_spec (length (firstn (calcsize f) (unread fp))) (calcsize f)) as [E|E].
  - rewrite length_firstn in E. unfold remaining in Hlt. lia.
  - reflexivity.
Qed.

(** ** Locality: every decoder sees only the unread bytes *)

Lemma local_ret {A} (a : A) : local (ret a).
Proof.
  intros fp1 fp2 _. unfold ret. exists 0. rewrite !advance_0.
  split; reflexivity.
Qed.

Lemma local_lift {A} (r : outcome A) : local (lift r).
Proof.
  intros fp1 fp2 _. unfold lift. destruct r; try reflexivity.
  exists 0. rewrite !advance_0. split; reflexivity.
Qed.

Lemma local_bind {A B} (c : M A) (k : A -> M B) :
  local c -> (forall a, local (k a)) -> local (bind c k).
Proof.
  intros Hc Hk fp1 fp2 E. unfold bind.
  specialize (Hc fp1 fp2 E). destruct (c fp1) as [[a f1]|e|].
  - destruct Hc as (n & -> & ->).
    assert (E' : unread (advance fp1 n) = unread (advance fp2 n)).
    { rewrite !unread_advance, E. reflexivity. }
    specialize (Hk a _ _ E').
    destruct (k a (advance fp1 n)) as [[b f2]|e|]; try exact Hk.
    destruct Hk as (m & -> & ->). exists (n + m).
    rewrite !advance_advance. split; reflexivity.
  - rewrite Hc. reflexivity.
  - rewrite Hc. reflexivity.
Qed.

Lemma local_read n : local (read n).
Proof.
  intros fp1 fp2 E. rewrite !read_eq, E. eexists. split; reflexivity.
Qed.

Lemma local_read_all : local read_all.
Proof.
  intros fp1 fp2 E. rewrite !read_all_eq, E. eexists. split; reflexivity.
Qed.

Lemma local_read_unpack f n : local (read_unpack f n).
Proof.
  apply local_bind; [apply local_read | intros b; apply local_lift].
Qed.

Lemma local_read_H : local read_H.
Proof.
  apply local_bind; [apply local_read_unpack | intros t; apply local_lift].
Qed.

Lemma local_for_range {A} (body : M A) :
  local body -> forall n acc, local (for_range n body acc).
Proof.
  intros Hb. induction n as [|n IH]; intros acc; simpl.
  - apply local_ret.
  - apply local_bind; [exact Hb | intros x; apply IH].
Qed.

(** All a local computation does to its cursor is advance it. *)
Lemma local_advance {A} (c : M A) fp a fp' :
  local c -> c fp = Ok (a, fp') -> exists n, fp' = advance fp n.
Proof.
  intros Hc H. specialize (Hc fp fp eq_refl). rewrite H in Hc.
  destruct Hc as (n & -> & _). exists n. reflexivity.
Qed.

Ltac local_step :=
  first
    [ apply local_ret | apply local_lift | apply local_read | apply local_read_all
    | apply local_read_unpack | apply local_read_H
    | apply local_for_range
    | apply local_bind; [|intros ?]
    | match goal with
      | |- local (match ?t with _ => _ end) => destruct t
      end ].

Ltac solve_local := repeat local_step.

Lemma local_read_constant cp : local (read_constant cp).
Proof. unfold read_constant. solve_local. Qed.

Lemma local_Code_parse rec name cp :
  local (rec cp) -> local (Attribute_Code_parse rec name cp).
Proof. intros Hrec. unfold Attribute_Code_parse. solve_local. exact Hrec. Qed.

Lemma local_parse_variant rec c name cp :
  local (rec cp) -> local (_parse rec c name cp).
Proof.
  intros Hrec. destruct c; simpl;
    try (apply local_Code_parse; exact Hrec);
    unfold Attribute_ConstantValue_parse, Attribute_Exceptions_parse,
      Attribute_InnerClasses_parse, InnerClasses_entry,
      Attribute_EnclosingMethod_parse, Attribute_Synthetic_parse,
      Attribute_Signature_parse, Attribute_SourceFile_parse,
      Attribute_SourceDebugExtension_parse, Attribute_LineNumberTable_parse,
      LineNumberTable_entry, Attribute_LocalVariableTable_parse,
      LocalVariableTable_entry, Attribute_LocalVariableTypeTable_parse,
      LocalVariableTypeTable_entry, Attribute_Deprecated_parse,
      Attribute_BootstrapMethods_parse, BootstrapMethods_entry,
      Attribute_ModulePackages_parse, Attribute_ModuleMainClass_parse,
      Attribute_NestHost_parse, read_constant;
    solve_local.
Qed.

(** [Attribute.parse] is local whatever the recursive reference does: the
    variant decoder runs on a cursor of its own. *)
Lemma local_parse_body rec cp : local (parse_body rec cp).
Proof. unfold parse_body. solve_local. Qed.

Lemma local_parse_fuel fuel cp : local (Attribute_parse_fuel fuel cp).
Proof.
  destruct fuel as [|fuel]; simpl.
  - intros fp1 fp2 _. reflexivity.
  - apply local_parse_body.
Qed.

(** ** The recursion fuel *)

Lemma bind_ext {A B} (c : M A) (k1 k2 : A -> M B) fp :
  (forall a fp1, c fp = Ok (a, fp1) -> k1 a fp1 = k2 a fp1) ->
  bind c k1 fp = bind c k2 fp.
Proof.
  intros H. unfold bind. destruct (c fp) as [[a fp1]|e|]; try reflexivity.
  apply H. reflexivity.
Qed.

Lemma for_range_ext {A} (body1 body2 : M A) (b : list byte) :
  local body1 ->
  (forall fp, getvalue fp = b -> body1 fp = body2 fp) ->
  forall n acc fp, getvalue fp = b ->
    for_range n body1 acc fp = for_range n body2 acc fp.
Proof.
  intros Hl He. induction n as [|n IH]; intros acc fp Hb; simpl.
  - reflexivity.
  - unfold bind. rewrite <- (He fp Hb).
    destruct (body1 fp) as [[x fp1]|e|] eqn:E; try reflexivity.
    apply IH. destruct (local_advance _ _ _ _ Hl E) as (k & ->). exact Hb.
Qed.

Ltac advance_in H :=
  let k := fresh "k" in
  match type of H with
  | ?c ?fp = Ok (_, ?fp') =>
      let L := fresh "L" in
      assert (L : exists k, fp' = advance fp k);
      [ eapply local_advance; [|exact H]; solve_local
      | destruct L as (k & ->) ]
  end.

Lemma Code_parse_ext rec1 rec2 name cp fp :
  local (rec1 cp) ->
  (forall fp1, getvalue fp1 = getvalue fp -> rec1 cp fp1 = rec2 cp fp1) ->
  Attribute_Code_parse rec1 name cp fp = Attribute_Code_parse rec2 name cp fp.
Proof.
  intros Hl He. unfold Attribute_Code_parse.
  apply bind_ext. intros t f1 H1. advance_in H1.
  destruct t as [|max_stack [|max_locals [|code_length [|]]]]; try reflexivity.
  apply bind_ext. intros code f2 H2. advance_in H2.
  apply bind_ext. intros n_exc f3 H3. advance_in H3.
  apply bind_ext. intros exception_table f4 H4. advance_in H4.
  apply bind_ext. intros n_attr f5 H5. advance_in H5.
  unfold bind.
  rewrite (for_range_ext (rec1 cp) (rec2 cp) (getvalue fp) Hl He); reflexivity.
Qed.

Lemma parse_variant_ext rec1 rec2 c name cp fp :
  local (rec1 cp) ->
  (forall fp1, getvalue fp1 = getvalue fp -> rec1 cp fp1 = rec2 cp fp1) ->
  _parse rec1 c name cp fp = _parse rec2 c name cp fp.
Proof.
  intros Hl He. destruct c; try reflexivity. simpl.
  apply Code_parse_ext; assumption.
Qed.

(** The recursive reference is only ever applied to cursors over a body
    that is at least six bytes shorter than what the caller had left. *)
Lemma parse_body_ext rec1 rec2 cp fp :
  local (rec1 cp) ->
  (forall fp1, length (getvalue fp1) + 6 <= remaining fp ->
               rec1 cp fp1 = rec2 cp fp1) ->
  parse_body rec1 cp fp = parse_body rec2 cp fp.
Proof.
  intros Hl He. unfold parse_body.
  apply bind_ext. intros t f1 H1.
  apply read_unpack_Ok_inv in H1. destruct H1 as (Hlen & -> & ->).
  simpl calcsize in *. simpl unpack_from.
  apply bind_ext. intros name f2 H2. apply lift_Ok_inv in H2. destruct H2 as [H2 ->].
  apply bind_ext. intros info f3 H3. rewrite read_eq in H3.
  inversion H3; subst; clear H3.
  destruct (value name) as [v|]; try reflexivity.
  destruct (lookup_subclass v) as [c|]; try reflexivity.
  match goal with
  | |- context [run (_parse rec1 c name cp) (BytesIO_new ?i)] => set (info := i)
  end.
  assert (Hinfo : length info + 6 <= remaining fp).
  { subst info. rewrite length_firstn, unread_advance, length_skipn.
    rewrite length_firstn in Hlen. unfold remaining. lia. }
  unfold run.
  rewrite (parse_variant_ext rec1 rec2 c name cp (BytesIO_new info) Hl).
  - reflexivity.
  - intros fp1 Hfp1. apply He. rewrite Hfp1. exact Hinfo.
Qed.

Lemma remaining_le fp : remaining fp <= length (getvalue fp).
Proof. unfold remaining, unread. rewrite length_skipn. lia. Qed.

(** Any two amounts of fuel above the number of unread bytes give the same
    result. *)
Lemma parse_fuel_enough n : forall m cp fp,
  remaining fp < n -> remaining fp < m ->
  Attribute_parse_fuel n cp fp = Attribute_parse_fuel m cp fp.
Proof.
  induction n as [|n IH]; intros m cp fp Hn Hm; [lia|].
  destruct m as [|m]; [lia|]. simpl.
  apply parse_body_ext.
  - apply local_parse_fuel.
  - intros fp1 Hfp1. pose proof (remaining_le fp1). apply IH; lia.
Qed.

(** The unfolding equation of [Attribute.parse]. *)
Lemma Attribute_parse_eq cp fp :
  Attribute_parse cp fp = parse_body Attribute_parse cp fp.
Proof.
  unfold Attribute_parse at 1. simpl.
  apply parse_body_ext.
  - apply local_parse_fuel.
  - intros fp1 Hfp1. pose proof (remaining_le fp1). unfold Attribute_parse.
    apply parse_fuel_enough; lia.
Qed.

Lemma local_Attribute_parse cp : local (Attribute_parse cp).
Proof.
  intros fp1 fp2 E. rewrite !Attribute_parse_eq.
  apply local_parse_body. exact E.
Qed.

(** ** [Attribute.parse], step by step *)

Lemma header_Ok_inv fp t :
  header fp = Ok t ->
  6 <= remaining fp /\
  read_unpack [fmt_H; fmt_I] 6 fp = Ok (t, advance fp 6) /\
  exists name_index attribute_length, t = [name_index; attribute_length].
Proof.
  unfold header. intros H. apply unpack_Ok_inv in H. destruct H as [Hl ->].
  simpl calcsize in Hl.
  assert (Hr : 6 <= remaining fp).
  { rewrite length_firstn in Hl. unfold remaining. lia. }
  split; [exact Hr|]. split.
  - apply (read_unpack_eq [fmt_H; fmt_I] fp). exact Hr.
  - simpl. eauto.
Qed.

Lemma header_Raise fp e :
  header fp = Raise e -> e = struct_error /\ remaining fp < 6.
Proof.
  unfold header, unpack.
  destruct (Nat.eqb_spec (length (firstn 6 (unread fp))) (calcsize [fmt_H; fmt_I]))
    as [E|E]; try discriminate.
  intros H. inversion H. split; [reflexivity|].
  simpl calcsize in E. rewrite length_firstn in E. unfold remaining. lia.
Qed.

Lemma header_not_OutOfFuel fp : header fp <> OutOfFuel.
Proof.
  unfold header, unpack.
  destruct (length (firstn 6 (unread fp)) =? calcsize [fmt_H; fmt_I]); discriminate.
Qed.

Lemma read_unpack_header fp :
  read_unpack [fmt_H; fmt_I] 6 fp =
    match header fp with
    | Ok t => Ok (t, advance fp 6)
    | Raise e => Raise e
    | OutOfFuel => OutOfFuel
    end.
Proof.
  destruct (header fp) as [t|e|] eqn:H.
  - apply header_Ok_inv in H. tauto.
  - apply header_Raise in H. destruct H as [-> H].
    apply (read_unpack_short [fmt_H; fmt_I] fp). exact H.
  - destruct (header_not_OutOfFuel _ H).
Qed.

(** Steps 1 and 2 failing: a short header raises [struct.error], a name
    index that list subscription rejects raises [IndexError], a name
    without a [value] raises [AttributeError]. *)
Lemma parse_body_header_Raise rec cp fp e :
  header fp = Raise e -> parse_body rec cp fp = Raise e.
Proof.
  intros H. unfold parse_body, bind. rewrite read_unpack_header, H. reflexivity.
Qed.

Lemma parse_body_name_Raise rec cp fp name_index attribute_length e :
  header fp = Ok [name_index; attribute_length] ->
  getitem cp (name_index - 1) = Raise e ->
  parse_body rec cp fp = Raise e.
Proof.
  intros H G. unfold parse_body, bind. rewrite read_unpack_header, H.
  unfold lift. rewrite G. reflexivity.
Qed.

(** Steps 3 to 5 once the name is resolved. *)
Lemma parse_body_eq rec cp fp name_index attribute_length name :
  header fp = Ok [name_index; attribute_length] ->
  getitem cp (name_index - 1) = Ok name ->
  parse_body rec cp fp =
    let info := body fp attribute_length in
    let fp' := advance fp (6 + length info) in
    match value name with
    | None => Raise AttributeError
    | Some v =>
        match lookup_subclass v with
        | Some c =>
            match run (_parse rec c name cp) (BytesIO_new info) with
            | Ok a => Ok (a, fp')
            | Raise e => Raise e
            | OutOfFuel => OutOfFuel
            end
        | None => Ok (UnknownAttribute name info, fp')
        end
    end.
Proof.
  intros H G. unfold parse_body, bind. rewrite read_unpack_header, H.
  unfold lift at 1. rewrite G. rewrite read_eq.
  rewrite unread_advance, advance_advance. fold (body fp attribute_length).
  cbv zeta. destruct (value name) as [v|]; [|reflexivity].
  destruct (lookup_subclass v) as [c|]; reflexivity.
Qed.

Lemma getitem_not_OutOfFuel {A} (lst : list A) i : getitem lst i <> OutOfFuel.
Proof.
  unfold getitem.
  destruct (_ || _); [discriminate|].
  destruct (nth_error _ _); discriminate.
Qed.

(** What a returning [Attribute.parse] has done. *)
Lemma parse_body_Ok_inv rec cp fp a fp' :
  parse_body rec cp fp = Ok (a, fp') ->
  exists name_index attribute_length name v,
    header fp = Ok [name_index; attribute_length] /\
    getitem cp (name_index - 1) = Ok name /\
    value name = Some v /\
    fp' = advance fp (6 + length (body fp attribute_length)) /\
    match lookup_subclass v with
    | Some c =>
        run (_parse rec c name cp) (BytesIO_new (body fp attribute_length)) = Ok a
    | None => a = UnknownAttribute name (body fp attribute_length)
    end.
Proof.
  intros H.
  destruct (header fp) as [t|e|] eqn:Hh.
  - destruct (header_Ok_inv _ _ Hh) as (_ & _ & ni & len & ->).
    destruct (getitem cp (ni - 1)) as [name|e|] eqn:Hg.
    + rewrite (parse_body_eq rec _ _ _ _ _ Hh Hg) in H. cbv zeta in H.
      destruct (value name) as [v|] eqn:Hv; [|discriminate].
      exists ni, len, name, v.
      do 3 (split; [first [reflexivity | assumption]|]).
      destruct (lookup_subclass v) as [c|].
      * destruct (run _ _) as [a0|e|]; try discriminate.
        inversion H; subst. split; reflexivity.
      * inversion H; subst. split; reflexivity.
    + rewrite (parse_body_name_Raise rec _ _ _ _ _ Hh Hg) in H. discriminate.
    + destruct (getitem_not_OutOfFuel _ _ Hg).
  - rewrite (parse_body_header_Raise rec cp _ _ Hh) in H. discriminate.
  - destruct (header_not_OutOfFuel _ Hh).
Qed.

Lemma length_body fp attribute_length :
  length (body fp attribute_length) =
    Nat.min (Z.to_nat attribute_length) (remaining fp - 6).
Proof.
  unfold body, remaining. rewrite length_firstn, length_skipn. reflexivity.
Qed.

(** ** The dispatch on the name *)

Lemma lookup_subclass_Some v c :
  lookup_subclass v = Some c ->
  __name__ c = String.append "Attribute_" v /\
  c <> cls_UnknownAttribute /\
  In v recognized.
Proof.
  unfold lookup_subclass. intros H. apply find_some in H. destruct H as [_ H].
  apply String.eqb_eq in H. split; [exact H|].
  destruct c; simpl in H; try discriminate;
    injection H as <-; (split; [discriminate | simpl; tauto]).
Qed.

Lemma lookup_subclass_recognized v :
  In v recognized -> exists c, lookup_subclass v = Some c.
Proof.
  simpl. intros H.
  repeat (destruct H as [<-|H]; [eexists; reflexivity|]).
  destruct H.
Qed.

Lemma lookup_subclass_None v :
  lookup_subclass v = None <-> ~ In v recognized.
Proof.
  split.
  - intros H Hin. destruct (lookup_subclass_recognized v Hin) as (c & Hc).
    rewrite Hc in H. discriminate.
  - intros H. destruct (lookup_subclass v) as [c|] eqn:E; [|reflexivity].
    apply lookup_subclass_Some in E. tauto.
Qed.

(** Peel a successful monadic chain down to its last [ret]. *)
Ltac inv_M H :=
  repeat
    match type of H with
    | bind _ _ _ = Ok _ =>
        let a := fresh "a" in
        let fp := fresh "fp" in
        let H1 := fresh "H" in
        apply bind_Ok_inv in H; destruct H as (a & fp & H1 & H)
    | ret _ _ = Ok _ =>
        apply ret_Ok_inv in H; destruct H as [? ?]; subst
    | lift (Raise _) _ = Ok _ => discriminate H
    | (match ?t with _ => _ end) _ = Ok _ => destruct t
    end.

(** Every variant decoder builds an instance of its own class, holding the
    name it was given. *)
Lemma parse_variant_class rec c name cp fp a fp' :
  _parse rec c name cp fp = Ok (a, fp') ->
  class_of a = c /\ attr_name a = name.
Proof.
  intros H. destruct c; simpl in H;
    unfold Attribute_ConstantValue_parse, Attribute_Code_parse,
      Attribute_Exceptions_parse, Attribute_InnerClasses_parse,
      Attribute_EnclosingMethod_parse, Attribute_Synthetic_parse,
      Attribute_Signature_parse, Attribute_SourceFile_parse,
      Attribute_SourceDebugExtension_parse, Attribute_LineNumberTable_parse,
      Attribute_LocalVariableTable_parse, Attribute_LocalVariableTypeTable_parse,
      Attribute_Deprecated_parse, Attribute_BootstrapMethods_parse,
      Attribute_ModulePackages_parse, Attribute_ModuleMainClass_parse,
      Attribute_NestHost_parse in H;
    try discriminate H; inv_M H; split; reflexivity.
Qed.

Lemma Attribute_parse_Ok_inv cp fp a fp' :
  Attribute_parse cp fp = Ok (a, fp') ->
  exists name_index attribute_length name v,
    header fp = Ok [name_index; attribute_length] /\
    getitem cp (name_index - 1) = Ok name /\
    value name = Some v /\
    fp' = advance fp (6 + length (body fp attribute_length)) /\
    match lookup_subclass v with
    | Some c =>
        run (_parse Attribute_parse c name cp)
          (BytesIO_new (body fp attribute_length)) = Ok a
    | None => a = UnknownAttribute name (body fp attribute_length)
    end.
Proof. rewrite Attribute_parse_eq. apply parse_body_Ok_inv. Qed.

Lemma Attribute_parse_unknown cp fp name_index attribute_length name v :
  header fp = Ok [name_index; attribute_length] ->
  getitem cp (name_index - 1) = Ok name ->
  value name = Some v ->
  ~ In v recognized ->
  Attribute_parse cp fp =
    Ok (UnknownAttribute name (body fp attribute_length),
        advance fp (6 + length (body fp attribute_length))).
Proof.
  intros Hh Hg Hv Hn. rewrite Attribute_parse_eq.
  rewrite (parse_body_eq _ _ _ _ _ _ Hh Hg). cbv zeta. rewrite Hv.
  apply lookup_subclass_None in Hn. rewrite Hn. reflexivity.
Qed.


(** ** Byte lists laid out in a buffer *)

Lemma firstn_exact {A} (l r : list A) : firstn (length l) (l ++ r) = l.
Proof. rewrite firstn_app, firstn_all, Nat.sub_diag. simpl. apply app_nil_r. Qed.

Lemma skipn_exact {A} (l r : list A) : skipn (length l) (l ++ r) = r.
Proof. rewrite skipn_app, skipn_all, Nat.sub_diag. reflexivity. Qed.

(** ** Decoding bytes that are laid out one field after the other *)

Lemma unread_behind fp bytes rest :
  unread fp = bytes ++ rest -> unread (advance fp (length bytes)) = rest.
Proof. intros H. rewrite unread_advance, H. apply skipn_exact. Qed.

Lemma decodes_ret {A} (a : A) : decodes (ret a) [] a.
Proof. intros fp rest _. simpl. rewrite advance_0. reflexivity. Qed.

Lemma decodes_lift {A} (r : outcome A) (a : A) : r = Ok a -> decodes (lift r) [] a.
Proof. intros -> fp rest _. simpl. rewrite advance_0. reflexivity. Qed.

Lemma decodes_bind {A B} (c : M A) (k : A -> M B) b1 b2 a r :
  decodes c b1 a -> decodes (k a) b2 r -> decodes (bind c k) (b1 ++ b2) r.
Proof.
  intros Hc Hk fp rest E. rewrite <- app_assoc in E.
  rewrite (bind_Ok _ (Hc _ _ E)).
  rewrite (Hk _ rest (unread_behind _ _ _ E)).
  rewrite advance_advance, length_app. reflexivity.
Qed.

Lemma decodes_bind_nil_r {A B} (c : M A) (k : A -> M B) b a r :
  decodes c b a -> decodes (k a) [] r -> decodes (bind c k) b r.
Proof.
  intros Hc Hk. rewrite <- (app_nil_r b). eapply decodes_bind; eassumption.
Qed.

Lemma decodes_bind_nil_l {A B} (c : M A) (k : A -> M B) b a r :
  decodes c [] a -> decodes (k a) b r -> decodes (bind c k) b r.
Proof.
  intros Hc Hk. change b with ([] ++ b). eapply decodes_bind; eassumption.
Qed.

Lemma decodes_read bytes : decodes (read (length bytes)) bytes bytes.
Proof. intros fp rest E. rewrite read_eq, E, firstn_exact. reflexivity. Qed.

Lemma decodes_read_unpack f bytes :
  length bytes = calcsize f ->
  decodes (read_unpack f (calcsize f)) bytes (unpack_from f bytes).
Proof.
  intros Hl fp rest E. rewrite read_unpack_eq.
  - rewrite E, <- Hl, firstn_exact. reflexivity.
  - unfold remaining. rewrite E, length_app. lia.
Qed.

Lemma decodes_read_H bytes :
  length bytes = 2 -> decodes read_H bytes (be_uint 0 bytes).
Proof.
  intros Hl. unfold read_H. eapply decodes_bind_nil_r.
  - apply (decodes_read_unpack [fmt_H]). exact Hl.
  - apply decodes_lift. cbn [unpack_from item0 fmt_size].
    rewrite firstn_all2 by lia. reflexivity.
Qed.

(** The loop appends one decoded entry per chunk, in the order of the
    chunks. *)
Lemma decodes_for_range {A} (body : M A) chunks items :
  Forall2 (decodes body) chunks items ->
  forall acc, decodes (for_range (length chunks) body acc) (concat chunks) (acc ++ items).
Proof.
  induction 1 as [|chunk item chunks items Hd _ IH]; intros acc; simpl.
  - rewrite app_nil_r. apply decodes_ret.
  - eapply decodes_bind; [exact Hd|].
    replace (acc ++ item :: items) with ((acc ++ [item]) ++ items).
    + apply IH.
    + rewrite <- app_assoc. reflexivity.
Qed.

(** The shape shared by the table variants: a 2-byte count, then that many
    entries. *)
Lemma decodes_table {A B} (entry : M A) (build : list A -> B) cnt chunks items :
  length cnt = 2 ->
  be_uint 0 cnt = Z.of_nat (length chunks) ->
  Forall2 (decodes entry) chunks items ->
  decodes (bind read_H (fun n =>
           bind (for_range (Z.to_nat n) entry []) (fun t => ret (build t))))
    (cnt ++ concat chunks) (build items).
Proof.
  intros Hl Hn Hf. eapply decodes_bind; [apply decodes_read_H; exact Hl|].
  rewrite Hn, Nat2Z.id. eapply decodes_bind_nil_r.
  - apply (decodes_for_range entry chunks items Hf []).
  - apply decodes_ret.
Qed.

Lemma decodes_length {A} (c : M A) chunks items :
  Forall2 (decodes c) chunks items -> length items = length chunks.
Proof. intros H. symmetry. eapply Forall2_length; eassumption. Qed.

(** The entries of the seven tables. *)

Lemma decodes_LineNumberTable_entry chunk :
  length chunk = 4 ->
  decodes LineNumberTable_entry chunk
    (mkLineNumber (be_uint 0 (firstn 2 chunk)) (be_uint 0 (skipn 2 chunk))).
Proof.
  intros Hl. unfold LineNumberTable_entry. eapply decodes_bind_nil_r.
  - apply (decodes_read_unpack [fmt_H; fmt_H]). exact Hl.
  - apply decodes_lift. cbn [unpack_from LineNumber_star fmt_size].
    rewrite (firstn_all2 (n := 2) (skipn 2 chunk)) by (rewrite length_skipn; lia).
    reflexivity.
Qed.

Lemma decodes_read_constant cp chunk c :
  length chunk = 2 ->
  getitem cp (be_uint 0 chunk - 1) = Ok c ->
  decodes (read_constant cp) chunk c.
Proof.
  intros Hl Hg. unfold read_constant. eapply decodes_bind_nil_r.
  - apply decodes_read_H. exact Hl.
  - apply decodes_lift. exact Hg.
Qed.

Lemma decodes_InnerClasses_entry cp chunk i1 i2 i3 flags c1 c2 c3 :
  length chunk = 8 ->
  unpack_from [fmt_H; fmt_H; fmt_H; fmt_H] chunk = [i1; i2; i3; flags] ->
  getitem cp (i1 - 1) = Ok c1 ->
  getitem cp (i2 - 1) = Ok c2 ->
  getitem cp (i3 - 1) = Ok c3 ->
  decodes (InnerClasses_entry cp) chunk
    (mkInnerClass c1 c2 c3 (InnerClassAccessFlags flags)).
Proof.
  intros Hl Hu H1 H2 H3. unfold InnerClasses_entry. eapply decodes_bind_nil_r.
  - apply (decodes_read_unpack [fmt_H; fmt_H; fmt_H; fmt_H]). exact Hl.
  - rewrite Hu.
    eapply decodes_bind_nil_l; [apply decodes_lift; exact H1|].
    eapply decodes_bind_nil_l; [apply decodes_lift; exact H2|].
    eapply decodes_bind_nil_l; [apply decodes_lift; exact H3|].
    apply decodes_ret.
Qed.

Lemma decodes_BootstrapMethods_entry cp hdr chunks ref method arguments :
  length hdr = 4 ->
  unpack_from [fmt_H; fmt_H] hdr = [ref; Z.of_nat (length chunks)] ->
  Forall2 (decodes (read_constant cp)) chunks arguments ->
  getitem cp (ref - 1) = Ok method ->
  decodes (BootstrapMethods_entry cp) (hdr ++ concat chunks) (method, arguments).
Proof.
  intros Hl Hu Hf Hg. unfold BootstrapMethods_entry. eapply decodes_bind.
  - apply (decodes_read_unpack [fmt_H; fmt_H]). exact Hl.
  - rewrite Hu, Nat2Z.id. eapply decodes_bind_nil_r.
    + apply (decodes_for_range (read_constant cp) chunks arguments Hf []).
    + eapply decodes_bind_nil_l; [apply decodes_lift; exact Hg|].
      apply decodes_ret.
Qed.

Lemma decodes_LocalVariableTable_entry chunk start_pc line_number name_index
    descriptor_index index :
  length chunk = 10 ->
  unpack_from [fmt_H; fmt_H; fmt_H; fmt_H; fmt_H] chunk =
    [start_pc; line_number; name_index; descriptor_index; index] ->
  decodes LocalVariableTable_entry chunk
    (mkLocalVariable start_pc line_number name_index descriptor_index index).
Proof.
  intros Hl Hu. unfold LocalVariableTable_entry. eapply decodes_bind_nil_r.
  - apply (decodes_read_unpack [fmt_H; fmt_H; fmt_H; fmt_H; fmt_H]). exact Hl.
  - apply decodes_lift. rewrite Hu. reflexivity.
Qed.

Lemma decodes_LocalVariableTypeTable_entry chunk start_pc line_number name_index
    signature_index index :
  length chunk = 10 ->
  unpack_from [fmt_H; fmt_H; fmt_H; fmt_H; fmt_H] chunk =
    [start_pc; line_number; name_index; signature_index; index] ->
  decodes LocalVariableTypeTable_entry chunk
    (mkLocalVariableType start_pc line_number name_index signature_index index).
Proof.
  intros Hl Hu. unfold LocalVariableTypeTable_entry. eapply decodes_bind_nil_r.
  - apply (decodes_read_unpack [fmt_H; fmt_H; fmt_H; fmt_H; fmt_H]). exact Hl.
  - apply decodes_lift. rewrite Hu. reflexivity.
Qed.

Lemma decodes_unpack_chunks f chunks :
  Forall (fun chunk => length chunk = calcsize f) chunks ->
  Forall2 (decodes (read_unpack f (calcsize f))) chunks (map (unpack_from f) chunks).
Proof.
  induction 1 as [|chunk chunks Hl _ IH]; simpl; constructor.
  - apply decodes_read_unpack. exact Hl.
  - exact IH.
Qed.

(** The layout of a Code body: fixed fields, bytecode, exception table,
    nested attributes. *)
Lemma decodes_Code rec name cp hdr code cnt_e e_chunks cnt_a a_chunks
    max_stack max_locals attributes :
  length hdr = 8 ->
  unpack_from [fmt_H; fmt_H; fmt_I] hdr = [max_stack; max_locals; Z.of_nat (length code)] ->
  length cnt_e = 2 ->
  be_uint 0 cnt_e = Z.of_nat (length e_chunks) ->
  Forall (fun chunk => length chunk = 8) e_chunks ->
  length cnt_a = 2 ->
  be_uint 0 cnt_a = Z.of_nat (length a_chunks) ->
  Forall2 (decodes (rec cp)) a_chunks attributes ->
  decodes (Attribute_Code_parse rec name cp)
    (hdr ++ code ++ cnt_e ++ concat e_chunks ++ cnt_a ++ concat a_chunks)
    (Attribute_Code name max_stack max_locals code
       (map (unpack_from [fmt_H; fmt_H; fmt_H; fmt_H]) e_chunks) attributes).
Proof.
  intros Hh Hu He Hne Hec Ha Hna Hattrs. unfold Attribute_Code_parse.
  eapply decodes_bind.
  { apply (decodes_read_unpack [fmt_H; fmt_H; fmt_I]). exact Hh. }
  rewrite Hu, Nat2Z.id.
  eapply decodes_bind; [apply decodes_read|].
  eapply decodes_bind; [apply decodes_read_H; exact He|].
  rewrite Hne, Nat2Z.id.
  eapply decodes_bind.
  { apply (decodes_for_range (read_unpack [fmt_H; fmt_H; fmt_H; fmt_H] 8) e_chunks _
             (decodes_unpack_chunks [fmt_H; fmt_H; fmt_H; fmt_H] e_chunks Hec) []). }
  eapply decodes_bind; [apply decodes_read_H; exact Ha|].
  rewrite Hna, Nat2Z.id.
  eapply decodes_bind_nil_r.
  - apply (decodes_for_range (rec cp) a_chunks attributes Hattrs []).
  - apply decodes_ret.
Qed.

(** A whole [attribute_info]: header, then exactly the declared body. *)
Lemma decodes_Attribute_parse cp hdr info name_index name v a :
  unpack [fmt_H; fmt_I] hdr = Ok [name_index; Z.of_nat (length info)] ->
  getitem cp (name_index - 1) = Ok name ->
  value name = Some v ->
  match lookup_subclass v with
  | Some c => run (_parse Attribute_parse c name cp) (BytesIO_new info) = Ok a
  | None => a = UnknownAttribute name info
  end ->
  decodes (Attribute_parse cp) (hdr ++ info) a.
Proof.
  intros Hu Hg Hv Hd fp rest E.
  destruct (unpack_Ok_inv _ _ _ Hu) as [Hl _]. simpl calcsize in Hl.
  assert (Hh : header fp = Ok [name_index; Z.of_nat (length info)]).
  { unfold header. rewrite E, <- app_assoc, <- Hl, firstn_exact. exact Hu. }
  assert (Hb : body fp (Z.of_nat (length info)) = info).
  { unfold body. rewrite E, <- app_assoc, <- Hl, skipn_exact, Nat2Z.id.
    apply firstn_exact. }
  rewrite Attribute_parse_eq, (parse_body_eq _ _ _ _ _ _ Hh Hg). cbv zeta.
  rewrite Hv, Hb, length_app, Hl.
  destruct (lookup_subclass v) as [c|].
  - rewrite Hd. reflexivity.
  - rewrite Hd. reflexivity.
Qed.

(** Conversely, bytes that decode as one attribute wherever they stand are a
    header followed by exactly the body length it declares. *)
Lemma decodes_Attribute_parse_inv cp chunk a :
  decodes (Attribute_parse cp) chunk a ->
  exists name_index attribute_length,
    unpack [fmt_H; fmt_I] (firstn 6 chunk) = Ok [name_index; attribute_length] /\
    length chunk = 6 + Z.to_nat attribute_length.
Proof.
  intros Hd.
  pose proof (Hd (BytesIO_new chunk) [] (eq_sym (app_nil_r chunk))) as H0.
  apply Attribute_parse_Ok_inv in H0.
  destruct H0 as (ni & len & _ & _ & Hh & _ & _ & _ & _).
  destruct (header_Ok_inv _ _ Hh) as (H6 & _ & _).
  unfold remaining in H6. rewrite unread_new in H6.
  unfold header in Hh. rewrite unread_new in Hh.
  exists ni, len. split; [exact Hh|].
  set (pad := repeat x00 (Z.to_nat len)).
  pose proof (Hd (BytesIO_new (chunk ++ pad)) pad eq_refl) as H1.
  apply Attribute_parse_Ok_inv in H1.
  destruct H1 as (ni' & len' & _ & _ & Hh' & _ & _ & Hp & _).
  unfold header in Hh'. rewrite unread_new in Hh'.
  rewrite firstn_app in Hh'.
  replace (6 - length chunk) with 0 in Hh' by lia.
  simpl firstn in Hh' at 2. rewrite app_nil_r in Hh'.
  rewrite Hh in Hh'. inversion Hh'; subst ni' len'.
  unfold advance in Hp. inversion Hp as [Hpos].
  rewrite length_body in Hpos. unfold remaining in Hpos.
  rewrite unread_new, length_app in Hpos.
  subst pad. rewrite repeat_length in Hpos. lia.
Qed.

(** ** Bytes appended to the buffer *)

Lemma unread_advance_more fp1 fp2 extra n :
  unread fp2 = unread fp1 ++ extra -> n <= remaining fp1 ->
  unread (advance fp2 n) = unread (advance fp1 n) ++ extra.
Proof.
  intros E Hn. rewrite !unread_advance, E, skipn_app. unfold remaining in Hn.
  replace (n - length (unread fp1)) with 0 by lia. reflexivity.
Qed.

Lemma stable_ret {A} (x : A) fp : stable_at (ret x) fp.
Proof.
  intros fp2 extra a fp1' _ H. apply ret_Ok_inv in H. destruct H as [-> ->].
  exists 0. rewrite !advance_0. split; [lia|]. split; reflexivity.
Qed.

Lemma stable_lift {A} (r : outcome A) fp : stable_at (lift r) fp.
Proof.
  intros fp2 extra a fp1' _ H. apply lift_Ok_inv in H. destruct H as [-> ->].
  exists 0. rewrite !advance_0. split; [lia|]. split; reflexivity.
Qed.

Lemma stable_bind {A B} (c : M A) (k : A -> M B) fp :
  stable_at c fp -> (forall a n, stable_at (k a) (advance fp n)) ->
  stable_at (bind c k) fp.
Proof.
  intros Hc Hk fp2 extra b fp1' E H.
  apply bind_Ok_inv in H. destruct H as (a & f1 & H1 & H2).
  destruct (Hc _ _ _ _ E H1) as (n & Hn & -> & Hc2).
  destruct (Hk a n (advance fp2 n) extra b fp1'
              (unread_advance_more _ _ _ _ E Hn) H2) as (m & Hm & -> & Hk2).
  rewrite remaining_advance in Hm.
  exists (n + m). split; [lia|]. rewrite advance_advance. split; [reflexivity|].
  rewrite (bind_Ok _ Hc2), Hk2, advance_advance. reflexivity.
Qed.

Lemma stable_read_unpack f fp : stable_at (read_unpack f (calcsize f)) fp.
Proof.
  intros fp2 extra t fp1' E H.
  apply read_unpack_Ok_inv in H. destruct H as (Hl & -> & ->).
  rewrite length_firstn in Hl.
  exists (calcsize f). split; [unfold remaining; lia|]. split; [reflexivity|].
  rewrite read_unpack_eq by (unfold remaining; rewrite E, length_app; lia).
  rewrite E, firstn_app.
  replace (calcsize f - length (unread fp)) with 0 by lia.
  simpl firstn at 2. rewrite app_nil_r. reflexivity.
Qed.

Lemma stable_read_H fp : stable_at read_H fp.
Proof.
  unfold read_H. apply stable_bind.
  - apply (stable_read_unpack [fmt_H]).
  - intros t n. apply stable_lift.
Qed.

Lemma stable_for_range {A} (body : M A) :
  (forall fp, stable_at body fp) ->
  forall n acc fp, stable_at (for_range n body acc) fp.
Proof.
  intros Hb. induction n as [|n IH]; intros acc fp; simpl.
  - apply stable_ret.
  - apply stable_bind; [apply Hb | intros x m; apply IH].
Qed.

Ltac stable_step :=
  first
    [ apply stable_ret | apply stable_lift | apply stable_read_H
    | apply (stable_read_unpack [fmt_H; fmt_H])
    | apply (stable_read_unpack [fmt_H; fmt_H; fmt_H; fmt_H])
    | apply (stable_read_unpack [fmt_H; fmt_H; fmt_H; fmt_H; fmt_H])
    | apply stable_for_range; intros ?
    | apply stable_bind; [|intros ? ?]
    | match goal with
      | |- stable_at (match ?t with _ => _ end) _ => destruct t
      end ].

Ltac solve_stable := repeat stable_step.

Lemma extensible_of_stable {A} (c : M A) fp : stable_at c fp -> extensible_at c fp.
Proof.
  intros Hs fp2 extra a fp1' E H.
  destruct (Hs _ _ _ _ E H) as (n & _ & _ & H2). eauto.
Qed.

Lemma read_H_Ok_inv fp z fp' :
  read_H fp = Ok (z, fp') -> 2 <= remaining fp /\ fp' = advance fp 2.
Proof.
  unfold read_H. intros H. apply bind_Ok_inv in H.
  destruct H as (t & f1 & H1 & H2).
  apply read_unpack_Ok_inv in H1. destruct H1 as (Hl & _ & ->).
  apply lift_Ok_inv in H2. destruct H2 as [_ ->].
  rewrite length_firstn in Hl. simpl calcsize in *. unfold remaining.
  split; [lia|reflexivity].
Qed.

(** The loop over a body that may fill up to the end of the buffer: once it
    has, no further iteration can have followed. *)
Lemma for_range_extensible {A} (body : M A) :
  (forall fp x, remaining fp = 0 -> body fp <> Ok x) ->
  forall k fp1, (forall m, semistable_at body (advance fp1 m)) ->
  forall acc1 acc2 fp2 extra r fp1',
    unread fp2 = unread fp1 ++ extra ->
    for_range k body acc1 fp1 = Ok (r, fp1') ->
    exists r' fp2', for_range k body acc2 fp2 = Ok (r', fp2').
Proof.
  intros Hend. induction k as [|k IH]; intros fp1 Hs acc1 acc2 fp2 extra r fp1' E H.
  - simpl. unfold ret. eauto.
  - simpl in H |- *. apply bind_Ok_inv in H. destruct H as (x & f1 & H1 & H2).
    pose proof (Hs 0) as Hs0. rewrite advance_0 in Hs0.
    destruct (Hs0 _ _ _ _ E H1) as (n & Hn & -> & [Hsame | (Hfull & a' & fp2' & Hdiff)]).
    + rewrite (bind_Ok _ Hsame).
      eapply (IH (advance fp1 n)); [| apply unread_advance_more; eassumption | exact H2].
      intros m. rewrite advance_advance. apply Hs.
    + rewrite (bind_Ok _ Hdiff). destruct k as [|k].
      * simpl. unfold ret. eauto.
      * simpl in H2. apply bind_Ok_inv in H2. destruct H2 as (y & f2 & H3 & _).
        exfalso. eapply Hend; [|exact H3]. rewrite remaining_advance. lia.
Qed.

Lemma stable_next {A} (c : M A) f1 f2 extra a f1' :
  stable_at c f1 -> unread f2 = unread f1 ++ extra -> c f1 = Ok (a, f1') ->
  exists n, f1' = advance f1 n /\ c f2 = Ok (a, advance f2 n) /\
            unread (advance f2 n) = unread (advance f1 n) ++ extra.
Proof.
  intros Hs E H. destruct (Hs _ _ _ _ E H) as (n & Hn & -> & H2).
  exists n. split; [reflexivity|]. split; [exact H2|].
  apply unread_advance_more; assumption.
Qed.

Lemma Code_parse_extensible rec name cp fp1 :
  (forall fp x, remaining fp = 0 -> rec cp fp <> Ok x) ->
  (forall m, semistable_at (rec cp) (advance fp1 m)) ->
  extensible_at (Attribute_Code_parse rec name cp) fp1.
Proof.
  intros Hend Hs fp2 extra a fp1' E H. unfold Attribute_Code_parse in *.
  apply bind_Ok_inv in H. destruct H as (t & f1 & H1 & H).
  destruct (stable_next _ _ _ _ _ _ (stable_read_unpack [fmt_H; fmt_H; fmt_I] fp1) E H1)
    as (n1 & -> & H1' & E1).
  rewrite (bind_Ok _ H1'). clear H1 H1'.
  destruct t as [|max_stack [|max_locals [|code_length [|]]]]; try discriminate H.
  apply bind_Ok_inv in H. destruct H as (code & f2 & H2 & H).
  rewrite read_eq in H2. inversion H2; subst code f2; clear H2.
  apply bind_Ok_inv in H. destruct H as (n_exc & f3 & H3 & H).
  destruct (read_H_Ok_inv _ _ _ H3) as [Hmore _].
  rewrite remaining_advance, length_firstn in Hmore.
  assert (Hfull : Z.to_nat code_length <= remaining (advance fp1 n1)).
  { unfold remaining in *. lia. }
  assert (Hcode : firstn (Z.to_nat code_length) (unread (advance fp2 n1)) =
                  firstn (Z.to_nat code_length) (unread (advance fp1 n1))).
  { rewrite E1, firstn_app. unfold remaining in Hfull.
    replace (Z.to_nat code_length - length (unread (advance fp1 n1))) with 0 by lia.
    simpl firstn at 2. apply app_nil_r. }
  rewrite (bind_Ok _ (read_eq _ _)). rewrite Hcode.
  set (n2 := length (firstn (Z.to_nat code_length) (unread (advance fp1 n1)))) in *.
  assert (E2 : unread (advance (advance fp2 n1) n2) =
               unread (advance (advance fp1 n1) n2) ++ extra).
  { apply unread_advance_more; [exact E1|]. subst n2. rewrite length_firstn. lia. }
  destruct (stable_next _ _ _ _ _ _ (stable_read_H _) E2 H3) as (n3 & -> & H3' & E3).
  rewrite (bind_Ok _ H3'). clear H3 H3'.
  apply bind_Ok_inv in H. destruct H as (exception_table & f4 & H4 & H).
  destruct (stable_next _ _ _ _ _ _
              (stable_for_range _ (stable_read_unpack [fmt_H; fmt_H; fmt_H; fmt_H]) _ _ _)
              E3 H4) as (n4 & -> & H4' & E4).
  rewrite (bind_Ok _ H4'). clear H4 H4'.
  apply bind_Ok_inv in H. destruct H as (n_attr & f5 & H5 & H).
  destruct (stable_next _ _ _ _ _ _ (stable_read_H _) E4 H5) as (n5 & -> & H5' & E5).
  rewrite (bind_Ok _ H5'). clear H5 H5'.
  apply bind_Ok_inv in H. destruct H as (attributes & f6 & H6 & H).
  match type of H6 with
  | for_range _ _ _ ?f = _ =>
      assert (Hs' : forall m, semistable_at (rec cp) (advance f m))
        by (intros m; rewrite !advance_advance; apply Hs)
  end.
  destruct (for_range_extensible (rec cp) Hend (Z.to_nat n_attr) _ Hs'
              [] [] _ extra _ _ E5 H6) as (attributes' & f6' & H6').
  rewrite (bind_Ok _ H6'). unfold ret. eauto.
Qed.

Lemma SourceDebugExtension_parse_total name cp fp :
  Attribute_SourceDebugExtension_parse name cp fp =
    Ok (Attribute_SourceDebugExtension name (unread fp),
        advance fp (length (unread fp))).
Proof. reflexivity. Qed.

Lemma parse_variant_extensible rec c name cp fp1 :
  (forall fp x, remaining fp = 0 -> rec cp fp <> Ok x) ->
  (forall m, semistable_at (rec cp) (advance fp1 m)) ->
  extensible_at (_parse rec c name cp) fp1.
Proof.
  intros Hend Hs.
  destruct c; simpl;
    try (apply Code_parse_extensible; assumption);
    try (intros fp2 extra a fp1' _ _;
         rewrite SourceDebugExtension_parse_total; eauto; fail);
    apply extensible_of_stable;
    unfold Attribute_ConstantValue_parse, Attribute_Exceptions_parse,
      Attribute_InnerClasses_parse, InnerClasses_entry,
      Attribute_EnclosingMethod_parse, Attribute_Synthetic_parse,
      Attribute_Signature_parse, Attribute_SourceFile_parse,
      Attribute_LineNumberTable_parse,
      LineNumberTable_entry, Attribute_LocalVariableTable_parse,
      LocalVariableTable_entry, Attribute_LocalVariableTypeTable_parse,
      LocalVariableTypeTable_entry, Attribute_Deprecated_parse,
      Attribute_BootstrapMethods_parse, BootstrapMethods_entry,
      Attribute_ModulePackages_parse, Attribute_ModuleMainClass_parse,
      Attribute_NestHost_parse, read_constant;
    solve_stable.
Qed.

Lemma header_more fp1 fp2 extra t :
  unread fp2 = unread fp1 ++ extra -> header fp1 = Ok t -> header fp2 = Ok t.
Proof.
  intros E Hh. destruct (header_Ok_inv _ _ Hh) as (H6 & _ & _).
  unfold header in *. rewrite E, firstn_app. unfold remaining in H6.
  replace (6 - length (unread fp1)) with 0 by lia.
  simpl firstn at 2. rewrite app_nil_r. exact Hh.
Qed.

Lemma body_more fp1 fp2 extra attribute_length :
  unread fp2 = unread fp1 ++ extra -> 6 <= remaining fp1 ->
  body fp2 attribute_length =
    body fp1 attribute_length ++
    firstn (Z.to_nat attribute_length - (remaining fp1 - 6)) extra.
Proof.
  intros E H6. unfold body. rewrite E, skipn_app, firstn_app.
  unfold remaining in *.
  replace (6 - length (unread fp1)) with 0 by lia.
  rewrite length_skipn. reflexivity.
Qed.

Lemma parse_body_semistable rec cp fp1 :
  (forall fp x, remaining fp = 0 -> rec cp fp <> Ok x) ->
  (forall fp, length (getvalue fp) + 6 <= remaining fp1 -> semistable_at (rec cp) fp) ->
  semistable_at (parse_body rec cp) fp1.
Proof.
  intros Hend Hrec fp2 extra a fp1' E H.
  destruct (parse_body_Ok_inv _ _ _ _ _ H) as (ni & len & name & v & Hh & Hg & Hv & -> & Hd).
  destruct (header_Ok_inv _ _ Hh) as (H6 & _ & _).
  pose proof (header_more _ _ _ _ E Hh) as Hh2.
  pose proof (body_more _ _ _ len E H6) as Hb2.
  pose proof (length_body fp1 len) as Hlen.
  exists (6 + length (body fp1 len)). split; [lia|]. split; [reflexivity|].
  rewrite (parse_body_eq rec _ _ _ _ _ Hh2 Hg). cbv zeta. rewrite Hv.
  destruct (le_lt_dec (Z.to_nat len) (remaining fp1 - 6)) as [Hfit|Hshort].
  - left.
    replace (Z.to_nat len - (remaining fp1 - 6)) with 0 in Hb2 by lia.
    simpl in Hb2. rewrite app_nil_r in Hb2. rewrite Hb2.
    destruct (lookup_subclass v) as [c|]; rewrite Hd; reflexivity.
  - right. split; [lia|].
    destruct (lookup_subclass v) as [c|]; [|eauto].
    apply run_Ok_inv in Hd. destruct Hd as (fpi & Hd).
    assert (Hs : forall m, semistable_at (rec cp) (advance (BytesIO_new (body fp1 len)) m)).
    { intros m. apply Hrec. simpl. lia. }
    destruct (parse_variant_extensible rec c name cp _ Hend Hs
                (BytesIO_new (body fp2 len)) _ _ _ Hb2 Hd) as (a' & fpi' & Hd').
    unfold run. rewrite Hd'. eauto.
Qed.

Lemma Attribute_parse_needs_header cp fp x :
  remaining fp = 0 -> Attribute_parse cp fp <> Ok x.
Proof.
  intros H0 H. destruct x as [a fp'].
  apply Attribute_parse_Ok_inv in H.
  destruct H as (ni & len & _ & _ & Hh & _).
  destruct (header_Ok_inv _ _ Hh) as (H6 & _). lia.
Qed.

Lemma Attribute_parse_semistable cp : forall fp, semistable_at (Attribute_parse cp) fp.
Proof.
  assert (H : forall N fp, length (getvalue fp) <= N ->
                           semistable_at (Attribute_parse cp) fp).
  { induction N as [|N IH]; intros fp HN.
    - intros fp2 extra a fp1' _ H. exfalso.
      apply (Attribute_parse_needs_header cp fp (a, fp1')); [|exact H].
      pose proof (remaining_le fp). lia.
    - intros fp2 extra a fp1' E H. rewrite Attribute_parse_eq in H.
      pose proof (remaining_le fp) as Hle.
      destruct (parse_body_semistable Attribute_parse cp fp
                  (Attribute_parse_needs_header cp)
                  (fun f Hf => IH f ltac:(lia)) fp2 extra a fp1' E H)
        as (n & Hn & -> & Hcases).
      exists n. split; [exact Hn|]. split; [reflexivity|].
      rewrite Attribute_parse_eq. exact Hcases. }
  intros fp. apply (H (length (getvalue fp))). lia.
Qed.

(** ** Totality: the fuel [Attribute_parse] supplies is never used up *)

Lemma bind_fueled_at {A B} (c : M A) (k : A -> M B) fp :
  c fp <> OutOfFuel ->
  (forall a fp1, c fp = Ok (a, fp1) -> k a fp1 <> OutOfFuel) ->
  bind c k fp <> OutOfFuel.
Proof.
  intros Hc Hk. unfold bind. destruct (c fp) as [[a fp1]|e|].
  - apply Hk. reflexivity.
  - discriminate.
  - destruct Hc. reflexivity.
Qed.

Lemma fueled_ret {A} (a : A) : fueled (ret a).
Proof. intros fp. discriminate. Qed.

Lemma fueled_lift {A} (r : outcome A) : r <> OutOfFuel -> fueled (lift r).
Proof.
  intros Hr fp. unfold lift. destruct r; try discriminate.
  destruct Hr. reflexivity.
Qed.

Lemma fueled_bind {A B} (c : M A) (k : A -> M B) :
  fueled c -> (forall a, fueled (k a)) -> fueled (bind c k).
Proof. intros Hc Hk fp. apply bind_fueled_at; [apply Hc | intros a fp1 _; apply Hk]. Qed.

Lemma fueled_read n : fueled (read n).
Proof. intros fp. discriminate. Qed.

Lemma fueled_read_all : fueled read_all.
Proof. intros fp. discriminate. Qed.

Lemma unpack_not_OutOfFuel f b : unpack f b <> OutOfFuel.
Proof. unfold unpack. destruct (_ =? _); discriminate. Qed.

Lemma fueled_read_unpack f n : fueled (read_unpack f n).
Proof.
  apply fueled_bind; [apply fueled_read|].
  intros b. apply fueled_lift, unpack_not_OutOfFuel.
Qed.

Lemma fueled_read_H : fueled read_H.
Proof.
  apply fueled_bind; [apply fueled_read_unpack|].
  intros t. apply fueled_lift. destruct t; discriminate.
Qed.

Lemma for_range_fueled_at {A} (body : M A) fp :
  local body -> (forall m, body (advance fp m) <> OutOfFuel) ->
  forall n acc, for_range n body acc fp <> OutOfFuel.
Proof.
  intros Hl. intros Hb n. revert fp Hb.
  induction n as [|n IH]; intros fp Hb acc; simpl.
  - discriminate.
  - apply bind_fueled_at.
    + rewrite <- (advance_0 fp). apply Hb.
    + intros x fp1 H1. destruct (local_advance _ _ _ _ Hl H1) as (k & ->).
      apply IH. intros m. rewrite advance_advance. apply Hb.
Qed.

Lemma fueled_for_range {A} (body : M A) :
  local body -> fueled body -> forall n acc, fueled (for_range n body acc).
Proof.
  intros Hl Hb n acc fp. apply for_range_fueled_at; [exact Hl|].
  intros m. apply Hb.
Qed.

Lemma LineNumber_star_not_OutOfFuel t : LineNumber_star t <> OutOfFuel.
Proof. unfold LineNumber_star. repeat (destruct t as [|? t]; try discriminate). Qed.

Lemma LocalVariable_star_not_OutOfFuel t : LocalVariable_star t <> OutOfFuel.
Proof. unfold LocalVariable_star. repeat (destruct t as [|? t]; try discriminate). Qed.

Lemma LocalVariableType_star_not_OutOfFuel t : LocalVariableType_star t <> OutOfFuel.
Proof.
  unfold LocalVariableType_star. repeat (destruct t as [|? t]; try discriminate).
Qed.

Ltac fueled_step :=
  first
    [ apply fueled_ret | apply fueled_read | apply fueled_read_all
    | apply fueled_read_unpack | apply fueled_read_H
    | apply fueled_lift;
      first [ apply getitem_not_OutOfFuel | discriminate
            | apply LineNumber_star_not_OutOfFuel
            | apply LocalVariable_star_not_OutOfFuel
            | apply LocalVariableType_star_not_OutOfFuel ]
    | apply fueled_for_range; [solve_local|]
    | apply fueled_bind; [|intros ?]
    | match goal with
      | |- fueled (match ?t with _ => _ end) => destruct t
      end ].

Ltac solve_fueled := repeat fueled_step.

Lemma Code_parse_fueled_at rec name cp fp :
  local (rec cp) -> (forall m, rec cp (advance fp m) <> OutOfFuel) ->
  Attribute_Code_parse rec name cp fp <> OutOfFuel.
Proof.
  intros Hl Hrec. unfold Attribute_Code_parse.
  apply bind_fueled_at; [apply fueled_read_unpack|]. intros t f1 H1. advance_in H1.
  destruct t as [|max_stack [|max_locals [|code_length [|]]]]; try discriminate.
  apply bind_fueled_at; [apply fueled_read|]. intros code f2 H2. advance_in H2.
  apply bind_fueled_at; [apply fueled_read_H|]. intros n_exc f3 H3. advance_in H3.
  apply bind_fueled_at.
  { apply fueled_for_range; [solve_local | apply fueled_read_unpack]. }
  intros exception_table f4 H4. advance_in H4.
  apply bind_fueled_at; [apply fueled_read_H|]. intros n_attr f5 H5. advance_in H5.
  apply bind_fueled_at; [|discriminate].
  apply for_range_fueled_at; [exact Hl|].
  intros m. rewrite !advance_advance. apply Hrec.
Qed.

Lemma parse_variant_fueled rec c name cp :
  c <> cls_Code -> fueled (_parse rec c name cp).
Proof.
  intros Hc.
  destruct c; try congruence; simpl;
    unfold Attribute_ConstantValue_parse, Attribute_Exceptions_parse,
      Attribute_InnerClasses_parse, InnerClasses_entry,
      Attribute_EnclosingMethod_parse, Attribute_Synthetic_parse,
      Attribute_Signature_parse, Attribute_SourceFile_parse,
      Attribute_SourceDebugExtension_parse, Attribute_LineNumberTable_parse,
      LineNumberTable_entry, Attribute_LocalVariableTable_parse,
      LocalVariableTable_entry, Attribute_LocalVariableTypeTable_parse,
      LocalVariableTypeTable_entry, Attribute_Deprecated_parse,
      Attribute_BootstrapMethods_parse, BootstrapMethods_entry,
      Attribute_ModulePackages_parse, Attribute_ModuleMainClass_parse,
      Attribute_NestHost_parse, read_constant;
    solve_fueled.
Qed.

Lemma parse_variant_fueled_at rec c name cp fp :
  local (rec cp) -> (forall m, rec cp (advance fp m) <> OutOfFuel) ->
  _parse rec c name cp fp <> OutOfFuel.
Proof.
  intros Hl Hrec.
  assert (Hc : c = cls_Code \/ c <> cls_Code) by (destruct c; auto; right; discriminate).
  destruct Hc as [-> | Hc].
  - simpl. apply Code_parse_fueled_at; assumption.
  - apply parse_variant_fueled. exact Hc.
Qed.

Lemma parse_body_fueled_at rec cp fp :
  local (rec cp) ->
  (forall fp1, length (getvalue fp1) + 6 <= remaining fp -> rec cp fp1 <> OutOfFuel) ->
  parse_body rec cp fp <> OutOfFuel.
Proof.
  intros Hl Hrec.
  destruct (header fp) as [t|e|] eqn:Hh.
  - destruct (header_Ok_inv _ _ Hh) as (H6 & _ & ni & len & ->).
    destruct (getitem cp (ni - 1)) as [name|e|] eqn:Hg.
    + rewrite (parse_body_eq rec _ _ _ _ _ Hh Hg). cbv zeta.
      destruct (value name) as [v|]; [|discriminate].
      destruct (lookup_subclass v) as [c|]; [|discriminate].
      unfold run.
      pose proof (parse_variant_fueled_at rec c name cp
                    (BytesIO_new (body fp len)) Hl) as Hv.
      destruct (_parse rec c name cp (BytesIO_new (body fp len))) as [[a f]|e|];
        try discriminate.
      exfalso. apply Hv; [|reflexivity].
      intros m. apply Hrec. simpl. rewrite length_body. lia.
    + rewrite (parse_body_name_Raise rec _ _ _ _ _ Hh Hg). discriminate.
    + destruct (getitem_not_OutOfFuel _ _ Hg).
  - rewrite (parse_body_header_Raise rec cp _ _ Hh). discriminate.
  - destruct (header_not_OutOfFuel _ Hh).
Qed.

(** [Attribute.parse] always returns or raises. *)
Lemma Attribute_parse_total cp : fueled (Attribute_parse cp).
Proof.
  assert (H : forall N fp, length (getvalue fp) <= N ->
                           Attribute_parse cp fp <> OutOfFuel).
  { induction N as [|N IH]; intros fp HN; rewrite Attribute_parse_eq;
      apply parse_body_fueled_at; try apply local_Attribute_parse;
      intros fp1 Hfp1; pose proof (remaining_le fp).
    - lia.
    - apply IH. lia. }
  intros fp. apply (H (length (getvalue fp))). lia.
Qed.

(** ** List subscription at the ends of the constant pool *)

Lemma getitem_beyond {A} (lst : list A) (i : Z) :
  (Z.of_nat (length lst) < i)%Z -> getitem lst (i - 1) = Raise IndexError.
Proof.
  intros H. unfold getitem.
  destruct (Z.ltb_spec (i - 1) 0); [lia|].
  destruct (Z.ltb_spec (i - 1) 0); [lia|].
  destruct (Z.leb_spec (Z.of_nat (length lst)) (i - 1)); [reflexivity|lia].
Qed.

Lemma getitem_inside {A} (lst : list A) (i : Z) :
  (1 <= i <= Z.of_nat (length lst))%Z ->
  exists x, getitem lst (i - 1) = Ok x /\ nth_error lst (Z.to_nat (i - 1)) = Some x.
Proof.
  intros H. unfold getitem.
  destruct (Z.ltb_spec (i - 1) 0); [lia|].
  destruct (Z.ltb_spec (i - 1) 0); [lia|].
  destruct (Z.leb_spec (Z.of_nat (length lst)) (i - 1)); [lia|]. simpl.
  destruct (nth_error lst (Z.to_nat (i - 1))) as [x|] eqn:E.
  - exists x. split; reflexivity.
  - apply nth_error_None in E. lia.
Qed.

(** Index 0 becomes [lst[-1]], the last element. *)
Lemma getitem_zero_wraps {A} (lst : list A) (x : A) :
  getitem (lst ++ [x]) (0 - 1) = Ok x.
Proof.
  unfold getitem. rewrite length_app. cbn [length].
  change (0 - 1 <? 0)%Z with true. cbv beta iota zeta.
  replace (0 - 1 + Z.of_nat (length lst + 1))%Z with (Z.of_nat (length lst)) by lia.
  destruct (Z.ltb_spec (Z.of_nat (length lst)) 0); [lia|].
  destruct (Z.leb_spec (Z.of_nat (length lst + 1)) (Z.of_nat (length lst))); [lia|].
  cbn [orb]. rewrite Nat2Z.id.
  rewrite nth_error_app2 by lia. rewrite Nat.sub_diag. reflexivity.
Qed.

Lemma Attribute_parse_name_beyond cp fp name_index attribute_length :
  header fp = Ok [name_index; attribute_length] ->
  (Z.of_nat (length cp) < name_index)%Z ->
  Attribute_parse cp fp = Raise IndexError.
Proof.
  intros Hh Hi. rewrite Attribute_parse_eq.
  apply (parse_body_name_Raise _ _ _ _ _ _ Hh). apply getitem_beyond. exact Hi.
Qed.

Lemma Attribute_parse_short_header cp fp :
  remaining fp < 6 -> Attribute_parse cp fp = Raise struct_error.
Proof.
  intros H. rewrite Attribute_parse_eq. apply parse_body_header_Raise.
  unfold header, unpack.
  destruct (Nat.eqb_spec (length (firstn 6 (unread fp))) (calcsize [fmt_H; fmt_I]))
    as [E|E]; [|reflexivity].
  simpl calcsize in E. rewrite length_firstn in E. unfold remaining in H. lia.
Qed.

(** ** The properties of the specification *)



Lemma table_of_intro {A B} (entry : M A) (build : list A -> B) :
  table_of (bind read_H (fun n =>
            bind (for_range (Z.to_nat n) entry []) (fun t => ret (build t))))
    entry build.
Proof.
  intros cnt chunks items Hl Hn Hf. split.
  - apply decodes_table; assumption.
  - rewrite Hn. f_equal. eapply decodes_length. exact Hf.
Qed.

(** C5: a Code body laid out as two 2-byte counts and a 4-byte code length,
    that many bytecode bytes, a 2-byte count and that many 8-byte exception
    entries, a 2-byte count [k] and [k] attributes decodes to exactly those
    fields.  The nested attributes are the results of [k] calls of
    [Attribute.parse] with the same constant pool, one per chunk, each chunk
    being a header followed by exactly the body length it declares; the
    bytecode and the exception table take no part in them. *)
Theorem Code_body_layout name cp hdr code cnt_e e_chunks cnt_a a_chunks
    max_stack max_locals attributes :
  length hdr = 8 ->
  unpack_from [fmt_H; fmt_H; fmt_I] hdr = [max_stack; max_locals; Z.of_nat (length code)] ->
  length cnt_e = 2 ->
  be_uint 0 cnt_e = Z.of_nat (length e_chunks) ->
  Forall (fun chunk => length chunk = 8) e_chunks ->
  length cnt_a = 2 ->
  be_uint 0 cnt_a = Z.of_nat (length a_chunks) ->
  Forall2 (decodes (Attribute_parse cp)) a_chunks attributes ->
  decodes (Attribute_Code_parse Attribute_parse name cp)
    (hdr ++ code ++ cnt_e ++ concat e_chunks ++ cnt_a ++ concat a_chunks)
    (Attribute_Code name max_stack max_locals code
       (map (unpack_from [fmt_H; fmt_H; fmt_H; fmt_H]) e_chunks) attributes) /\
  Z.of_nat (length attributes) = be_uint 0 cnt_a /\
  Forall (fun chunk =>
            exists name_index attribute_length,
              unpack [fmt_H; fmt_I] (firstn 6 chunk) = Ok [name_index; attribute_length] /\
              length chunk = 6 + Z.to_nat attribute_length) a_chunks.
Proof.
  intros Hh Hu He Hne Hec Ha Hna Hattrs. split; [|split].
  - apply decodes_Code; assumption.
  - rewrite Hna. f_equal. eapply decodes_length. exact Hattrs.
  - clear Hna. induction Hattrs as [|chunk a chunks attrs Hd _ IH]; constructor.
    + eapply decodes_Attribute_parse_inv. exact Hd.
    + exact IH.
Qed.

(** C6: each of the seven count-prefixed table variants returns one item
    per entry of the input, as many as the 2-byte count declares, in the
    order of the entries in the bytes; equal entries stay as they are. *)
Theorem tables_keep_count_and_order name cp :
  table_of (Attribute_Exceptions_parse name cp) read_H (Attribute_Exceptions name) /\
  table_of (Attribute_InnerClasses_parse name cp) (InnerClasses_entry cp)
    (Attribute_InnerClasses name) /\
  table_of (Attribute_LineNumberTable_parse name cp) LineNumberTable_entry
    (Attribute_LineNumberTable name) /\
  table_of (Attribute_LocalVariableTable_parse name cp) LocalVariableTable_entry
    (Attribute_LocalVariableTable name) /\
  table_of (Attribute_LocalVariableTypeTable_parse name cp) LocalVariableTypeTable_entry
    (Attribute_LocalVariableTypeTable name) /\
  table_of (Attribute_BootstrapMethods_parse name cp) (BootstrapMethods_entry cp)
    (Attribute_BootstrapMethods name) /\
  table_of (Attribute_ModulePackages_parse name cp) (read_constant cp)
    (Attribute_ModulePackages name).
Proof.
  refine (conj _ (conj _ (conj _ (conj _ (conj _ (conj _ _)))))).
  - apply (table_of_intro read_H (Attribute_Exceptions name)).
  - apply (table_of_intro (InnerClasses_entry cp) (Attribute_InnerClasses name)).
  - apply (table_of_intro LineNumberTable_entry (Attribute_LineNumberTable name)).
  - apply (table_of_intro LocalVariableTable_entry (Attribute_LocalVariableTable name)).
  - apply (table_of_intro LocalVariableTypeTable_entry
             (Attribute_LocalVariableTypeTable name)).
  - apply (table_of_intro (BootstrapMethods_entry cp) (Attribute_BootstrapMethods name)).
  - apply (table_of_intro (read_constant cp) (Attribute_ModulePackages name)).
Qed.

(** C7: a name that is none of the recognized ones is not an error:
    [Attribute.parse] returns [UnknownAttribute] with the resolved name and
    the body it read, which is the declared body of the input byte for byte
    wherever the input holds all of it. *)
Theorem unknown_name_keeps_body cp fp name_index attribute_length name v :
  header fp = Ok [name_index; attribute_length] ->
  getitem cp (name_index - 1) = Ok name ->
  value name = Some v ->
  ~ In v recognized ->
  Attribute_parse cp fp =
    Ok (UnknownAttribute name (body fp attribute_length),
        advance fp (6 + length (body fp attribute_length))) /\
  forall hdr info post,
    unread fp = hdr ++ info ++ post ->
    length hdr = 6 ->
    attribute_length = Z.of_nat (length info) ->
    body fp attribute_length = info.
Proof.
  intros Hh Hg Hv Hn. split.
  - apply (Attribute_parse_unknown _ _ _ _ _ _ Hh Hg Hv Hn).
  - intros hdr info post Hu Hl ->. unfold body.
    rewrite Hu, <- Hl, skipn_exact, Nat2Z.id. apply firstn_exact.
Qed.

(** C8: the class of the attribute returned is the one the resolved name
    selects, [Attribute_<name>] for a recognized name and [UnknownAttribute]
    otherwise, and its [name] field is the resolved constant-pool entry. *)
Theorem variant_matches_name cp fp a fp' :
  Attribute_parse cp fp = Ok (a, fp') ->
  exists name_index attribute_length name v,
    header fp = Ok [name_index; attribute_length] /\
    getitem cp (name_index - 1) = Ok name /\
    value name = Some v /\
    attr_name a = name /\
    (In v recognized -> __name__ (class_of a) = String.append "Attribute_" v) /\
    (~ In v recognized -> class_of a = cls_UnknownAttribute).
Proof.
  intros H.
  destruct (Attribute_parse_Ok_inv _ _ _ _ H)
    as (ni & len & name & v & Hh & Hg & Hv & _ & Hd).
  exists ni, len, name, v. do 3 (split; [assumption|]).
  destruct (lookup_subclass v) as [c|] eqn:Hc.
  - apply run_Ok_inv in Hd. destruct Hd as (fpi & Hd).
    apply parse_variant_class in Hd. destruct Hd as [<- Hname].
    apply lookup_subclass_Some in Hc. destruct Hc as (Hc & _ & Hin).
    split; [exact Hname|]. split; [intros _; exact Hc | intros Hn; destruct (Hn Hin)].
  - subst a. apply lookup_subclass_None in Hc.
    split; [reflexivity|]. split; [intros Hin; destruct (Hc Hin) | reflexivity].
Qed.

Lemma local_run {A} (c : M A) fp1 fp2 :
  local c -> unread fp1 = unread fp2 -> run c fp1 = run c fp2.
Proof.
  intros Hl E. specialize (Hl fp1 fp2 E). unfold run.
  destruct (c fp1) as [[a f1]|e|].
  - destruct Hl as (n & _ & ->). reflexivity.
  - rewrite Hl. reflexivity.
  - rewrite Hl. reflexivity.
Qed.

(** C9: [Attribute.parse] is a function of the buffer, the position and the
    constant pool: two runs on equal inputs return the same attribute or
    raise the same exception, whatever recursion fuel each is given beyond
    the number of unread bytes, and neither fails to terminate; the outcome
    is even the same for any cursor that has the same unread bytes. *)
Theorem Attribute_parse_deterministic cp1 cp2 fp1 fp2 :
  cp1 = cp2 -> getvalue fp1 = getvalue fp2 -> tell fp1 = tell fp2 ->
  Attribute_parse cp1 fp1 = Attribute_parse cp2 fp2 /\
  Attribute_parse cp1 fp1 <> OutOfFuel /\
  (forall n m, remaining fp1 < n -> remaining fp2 < m ->
     Attribute_parse_fuel n cp1 fp1 = Attribute_parse_fuel m cp2 fp2) /\
  (forall fp3, unread fp3 = unread fp1 ->
     run (Attribute_parse cp1) fp3 = run (Attribute_parse cp2) fp2).
Proof.
  intros <- Hb Ht.
  assert (E : fp1 = fp2).
  { destruct fp1, fp2. simpl in *. subst. reflexivity. }
  subst fp2. split; [reflexivity|]. split; [apply Attribute_parse_total|]. split.
  - intros n m Hn Hm. apply parse_fuel_enough; assumption.
  - intros fp3 E. apply local_run; [apply local_Attribute_parse | exact E].
Qed.

(** C10: no decoder checks how much of its body it consumed.  The Synthetic
    and Deprecated decoders read nothing and return the bare name on every
    body, also through [Attribute.parse], and for every variant a body that
    decodes still decodes with any bytes appended to it. *)
Theorem trailing_body_bytes_are_ignored name cp :
  (forall fp, Attribute_Synthetic_parse name cp fp = Ok (Attribute_Synthetic name, fp)) /\
  (forall fp, Attribute_Deprecated_parse name cp fp = Ok (Attribute_Deprecated name, fp)) /\
  (forall fp name_index attribute_length,
     header fp = Ok [name_index; attribute_length] ->
     getitem cp (name_index - 1) = Ok name ->
     (value name = Some "Synthetic"%string ->
      run (Attribute_parse cp) fp = Ok (Attribute_Synthetic name)) /\
     (value name = Some "Deprecated"%string ->
      run (Attribute_parse cp) fp = Ok (Attribute_Deprecated name))) /\
  (forall c info extra a,
     run (_parse Attribute_parse c name cp) (BytesIO_new info) = Ok a ->
     exists a', run (_parse Attribute_parse c name cp) (BytesIO_new (info ++ extra)) = Ok a').
Proof.
  split; [reflexivity|]. split; [reflexivity|]. split.
  - intros fp ni len Hh Hg. unfold run.
    rewrite Attribute_parse_eq, (parse_body_eq _ _ _ _ _ _ Hh Hg). cbv zeta.
    split; intros ->; reflexivity.
  - intros c info extra a H. apply run_Ok_inv in H. destruct H as (fpi & H).
    destruct (parse_variant_extensible Attribute_parse c name cp (BytesIO_new info)
                (Attribute_parse_needs_header cp)
                (fun m => Attribute_parse_semistable cp _)
                (BytesIO_new (info ++ extra)) extra a fpi eq_refl H) as (a' & fp2' & H').
    exists a'. unfold run. rewrite H'. reflexivity.
Qed.

(** ** Big-endian integers *)

Lemma be_uint_acc b : forall acc,
  be_uint acc b = (acc * 256 ^ Z.of_nat (length b) + be_uint 0 b)%Z.
Proof.
  induction b as [|x b IH]; intros acc.
  - simpl. lia.
  - cbn [be_uint length]. rewrite (IH (acc * 256 + _)%Z), (IH (0 * 256 + _)%Z).
    rewrite Nat2Z.inj_succ, Z.pow_succ_r by lia.
    set (p := (256 ^ Z.of_nat (length b))%Z). ring.
Qed.

Lemma be_uint_cons x b :
  be_uint 0 (x :: b) =
    (Z.of_N (Byte.to_N x) * 256 ^ Z.of_nat (length b) + be_uint 0 b)%Z.
Proof. cbn [be_uint]. rewrite be_uint_acc. f_equal. Qed.

Lemma byte_range x : (0 <= Z.of_N (Byte.to_N x) <= 255)%Z.
Proof. pose proof (Byte.to_N_bounded x). lia. Qed.

Lemma be_uint_range b : (0 <= be_uint 0 b < 256 ^ Z.of_nat (length b))%Z.
Proof.
  induction b as [|x b IH].
  - simpl. lia.
  - rewrite be_uint_cons. cbn [length].
    rewrite Nat2Z.inj_succ, Z.pow_succ_r by lia.
    pose proof (byte_range x). nia.
Qed.

Lemma be_uint_u16 b : length b <= 2 -> u16 (be_uint 0 b).
Proof.
  intros Hl. pose proof (be_uint_range b) as H. unfold u16.
  assert (256 ^ Z.of_nat (length b) <= 256 ^ 2)%Z by (apply Z.pow_le_mono_r; lia).
  change (256 ^ 2)%Z with 65536%Z in *. lia.
Qed.

Lemma byte_to_N_inj x y : Byte.to_N x = Byte.to_N y -> x = y.
Proof.
  intros H. pose proof (Byte.of_to_N x) as Hx. rewrite H, Byte.of_to_N in Hx.
  inversion Hx. reflexivity.
Qed.

(** Byte strings of one length with the same value are the same. *)
Lemma be_uint_inj b1 : forall b2,
  length b1 = length b2 -> be_uint 0 b1 = be_uint 0 b2 -> b1 = b2.
Proof.
  induction b1 as [|x b1 IH]; intros [|y b2] Hl H; try discriminate Hl.
  - reflexivity.
  - injection Hl as Hl. rewrite !be_uint_cons, <- Hl in H.
    pose proof (be_uint_range b1) as R1. pose proof (be_uint_range b2) as R2.
    rewrite <- Hl in R2.
    pose proof (byte_range x). pose proof (byte_range y).
    set (p := (256 ^ Z.of_nat (length b1))%Z) in *.
    assert (Hxy : Z.of_N (Byte.to_N x) = Z.of_N (Byte.to_N y)) by nia.
    assert (Hr : be_uint 0 b1 = be_uint 0 b2) by nia.
    f_equal.
    + apply byte_to_N_inj. lia.
    + apply IH; assumption.
Qed.

(** ** Tables of fixed-width entries *)

Lemma fixed_entry_read_unpack f :
  fixed_entry (read_unpack f (calcsize f)) (calcsize f) (unpack_from f).
Proof.
  intros fp. destruct (Nat.leb_spec (calcsize f) (remaining fp)).
  - apply read_unpack_eq. assumption.
  - apply read_unpack_short. assumption.
Qed.

Lemma fixed_entry_bind_lift {A B} (entry : M A) w (dec : list byte -> A)
    (g : A -> outcome B) (h : A -> B) :
  fixed_entry entry w dec -> (forall c, g (dec c) = Ok (h (dec c))) ->
  fixed_entry (bind entry (fun t => lift (g t))) w (fun c => h (dec c)).
Proof.
  intros He Hg fp. unfold bind. rewrite (He fp).
  destruct (w <=? remaining fp); [|reflexivity].
  unfold lift. rewrite Hg. reflexivity.
Qed.

Lemma firstn_2_twice (u : list byte) : firstn 2 (firstn 2 u) = firstn 2 u.
Proof. rewrite firstn_firstn. reflexivity. Qed.

Lemma fixed_entry_read_H : fixed_entry read_H 2 (be_uint 0).
Proof.
  intros fp. unfold read_H, bind.
  pose proof (fixed_entry_read_unpack [fmt_H] fp) as E. simpl calcsize in E.
  rewrite E. clear E.
  destruct (2 <=? remaining fp); [|reflexivity].
  cbn [unpack_from fmt_size lift item0]. rewrite firstn_2_twice. reflexivity.
Qed.

Lemma fixed_entry_LineNumber : fixed_entry LineNumberTable_entry 4 LineNumber_of_bytes.
Proof.
  apply (fixed_entry_bind_lift (read_unpack [fmt_H; fmt_H] 4) 4
           (unpack_from [fmt_H; fmt_H]) LineNumber_star
           (fun t => mkLineNumber (nth 0 t 0%Z) (nth 1 t 0%Z))).
  - apply (fixed_entry_read_unpack [fmt_H; fmt_H]).
  - intros c. reflexivity.
Qed.

Lemma fixed_entry_LocalVariable :
  fixed_entry LocalVariableTable_entry 10 LocalVariable_of_bytes.
Proof.
  apply (fixed_entry_bind_lift (read_unpack [fmt_H; fmt_H; fmt_H; fmt_H; fmt_H] 10) 10
           (unpack_from [fmt_H; fmt_H; fmt_H; fmt_H; fmt_H]) LocalVariable_star
           (fun t => mkLocalVariable (nth 0 t 0%Z) (nth 1 t 0%Z) (nth 2 t 0%Z)
                       (nth 3 t 0%Z) (nth 4 t 0%Z))).
  - apply (fixed_entry_read_unpack [fmt_H; fmt_H; fmt_H; fmt_H; fmt_H]).
  - intros c. reflexivity.
Qed.

Lemma fixed_entry_LocalVariableType :
  fixed_entry LocalVariableTypeTable_entry 10 LocalVariableType_of_bytes.
Proof.
  apply (fixed_entry_bind_lift (read_unpack [fmt_H; fmt_H; fmt_H; fmt_H; fmt_H] 10) 10
           (unpack_from [fmt_H; fmt_H; fmt_H; fmt_H; fmt_H]) LocalVariableType_star
           (fun t => mkLocalVariableType (nth 0 t 0%Z) (nth 1 t 0%Z) (nth 2 t 0%Z)
                       (nth 3 t 0%Z) (nth 4 t 0%Z))).
  - apply (fixed_entry_read_unpack [fmt_H; fmt_H; fmt_H; fmt_H; fmt_H]).
  - intros c. reflexivity.
Qed.

(** The loop over a fixed-width entry, in closed form. *)
Lemma for_range_fixed {A} (entry : M A) w (dec : list byte -> A) :
  fixed_entry entry w dec ->
  forall n acc fp,
    for_range n entry acc fp =
      if n * w <=? remaining fp
      then Ok (acc ++ map dec (chunks w n (unread fp)), advance fp (n * w))
      else Raise struct_error.
Proof.
  intros He. induction n as [|n IH]; intros acc fp.
  - simpl. rewrite app_nil_r, advance_0. reflexivity.
  - cbn [for_range]. unfold bind. rewrite (He fp).
    destruct (Nat.leb_spec w (remaining fp)) as [Hw|Hw].
    + rewrite IH, remaining_advance, unread_advance, advance_advance.
      cbn [chunks map Nat.mul].
      destruct (Nat.leb_spec (n * w) (remaining fp - w));
        destruct (Nat.leb_spec (w + n * w) (remaining fp)); try lia.
      * rewrite <- app_assoc. reflexivity.
      * reflexivity.
    + cbn [Nat.mul].
      destruct (Nat.leb_spec (w + n * w) (remaining fp)); [lia|reflexivity].
Qed.

Lemma fixed_table_intro {A B} (entry : M A) w (dec : list byte -> A)
    (build : list A -> B) :
  fixed_entry entry w dec ->
  fixed_table (bind read_H (fun n =>
               bind (for_range (Z.to_nat n) entry []) (fun t => ret (build t))))
    w dec build.
Proof.
  intros He fp. unfold bind at 1. rewrite (fixed_entry_read_H fp).
  destruct (Nat.leb_spec 2 (remaining fp)) as [H2|H2]; [|reflexivity].
  cbv zeta. unfold bind. rewrite (for_range_fixed entry w dec He).
  rewrite remaining_advance, unread_advance, advance_advance.
  set (n := Z.to_nat (be_uint 0 (firstn 2 (unread fp)))).
  destruct (Nat.leb_spec (n * w) (remaining fp - 2));
    destruct (Nat.leb_spec (2 + n * w) (remaining fp)); try lia; reflexivity.
Qed.

Lemma fixed_table_Exceptions name cp :
  fixed_table (Attribute_Exceptions_parse name cp) 2 (be_uint 0)
    (Attribute_Exceptions name).
Proof.
  apply (fixed_table_intro read_H 2 (be_uint 0) (Attribute_Exceptions name)).
  apply fixed_entry_read_H.
Qed.

Lemma fixed_table_LineNumberTable name cp :
  fixed_table (Attribute_LineNumberTable_parse name cp) 4 LineNumber_of_bytes
    (Attribute_LineNumberTable name).
Proof.
  apply (fixed_table_intro LineNumberTable_entry 4 LineNumber_of_bytes
           (Attribute_LineNumberTable name)).
  apply fixed_entry_LineNumber.
Qed.

Lemma fixed_table_LocalVariableTable name cp :
  fixed_table (Attribute_LocalVariableTable_parse name cp) 10 LocalVariable_of_bytes
    (Attribute_LocalVariableTable name).
Proof.
  apply (fixed_table_intro LocalVariableTable_entry 10 LocalVariable_of_bytes
           (Attribute_LocalVariableTable name)).
  apply fixed_entry_LocalVariable.
Qed.

Lemma fixed_table_LocalVariableTypeTable name cp :
  fixed_table (Attribute_LocalVariableTypeTable_parse name cp) 10
    LocalVariableType_of_bytes (Attribute_LocalVariableTypeTable name).
Proof.
  apply (fixed_table_intro LocalVariableTypeTable_entry 10 LocalVariableType_of_bytes
           (Attribute_LocalVariableTypeTable name)).
  apply fixed_entry_LocalVariableType.
Qed.

(** X1: the four tables of raw integers, without their loops.  Each
    decodes exactly when the body holds the 2-byte count and then count
    entries of its width (2, 4, 10 and 10 bytes); it then returns the entries
    read off the bytes in order and stands right behind them.  With anything
    less, an empty body included, it raises [struct.error].  The constant
    pool plays no part. *)
Theorem raw_tables_closed_form name cp :
  fixed_table (Attribute_Exceptions_parse name cp) 2 (be_uint 0)
    (Attribute_Exceptions name) /\
  fixed_table (Attribute_LineNumberTable_parse name cp) 4 LineNumber_of_bytes
    (Attribute_LineNumberTable name) /\
  fixed_table (Attribute_LocalVariableTable_parse name cp) 10 LocalVariable_of_bytes
    (Attribute_LocalVariableTable name) /\
  fixed_table (Attribute_LocalVariableTypeTable_parse name cp) 10
    LocalVariableType_of_bytes (Attribute_LocalVariableTypeTable name).
Proof.
  refine (conj _ (conj _ (conj _ _))).
  - apply fixed_table_Exceptions.
  - apply fixed_table_LineNumberTable.
  - apply fixed_table_LocalVariableTable.
  - apply fixed_table_LocalVariableTypeTable.
Qed.

Lemma length_chunks w n b : length (chunks w n b) = n.
Proof.
  revert b. induction n as [|n IH]; intros b; simpl; [reflexivity|].
  rewrite IH. reflexivity.
Qed.

Lemma chunks_full w n : forall b,
  n * w <= length b -> Forall (fun c => length c = w) (chunks w n b).
Proof.
  induction n as [|n IH]; intros b Hb; simpl; constructor.
  - rewrite length_firstn. simpl in Hb. lia.
  - apply IH. rewrite length_skipn. simpl in Hb. lia.
Qed.

Lemma firstn_plus {A} (l : list A) a b :
  firstn (a + b) l = firstn a l ++ firstn b (skipn a l).
Proof.
  revert l. induction a as [|a IH]; intros [|x l]; simpl; try reflexivity.
  - rewrite firstn_nil. reflexivity.
  - rewrite IH. reflexivity.
Qed.

Lemma concat_chunks w n : forall b, concat (chunks w n b) = firstn (n * w) b.
Proof.
  induction n as [|n IH]; intros b; simpl; [reflexivity|].
  rewrite IH, firstn_plus. reflexivity.
Qed.

(** What a returning table has read. *)
Lemma fixed_table_Ok_inv {A B} (parser : M B) w (dec : list byte -> A) build fp b fp' :
  fixed_table parser w dec build -> parser fp = Ok (b, fp') ->
  exists n,
    (Z.of_nat n < 65536)%Z /\
    Z.of_nat n = be_uint 0 (firstn 2 (unread fp)) /\
    2 + n * w <= remaining fp /\
    b = build (map dec (chunks w n (skipn 2 (unread fp)))) /\
    fp' = advance fp (2 + n * w).
Proof.
  intros Ht H. rewrite (Ht fp) in H.
  destruct (Nat.leb_spec 2 (remaining fp)) as [H2|H2]; [|discriminate].
  cbv zeta in H.
  destruct (Nat.leb_spec
              (2 + Z.to_nat (be_uint 0 (firstn 2 (unread fp))) * w) (remaining fp))
    as [Hn|Hn]; [|discriminate].
  inversion H; subst; clear H.
  assert (Hu : u16 (be_uint 0 (firstn 2 (unread fp)))).
  { apply be_uint_u16. rewrite length_firstn. lia. }
  unfold u16 in Hu.
  exists (Z.to_nat (be_uint 0 (firstn 2 (unread fp)))).
  repeat split; try reflexivity; try assumption; lia.
Qed.

Lemma map_inj_on {A B} (f : A -> B) (P : A -> Prop) :
  (forall x y, P x -> P y -> f x = f y -> x = y) ->
  forall l1 l2, Forall P l1 -> Forall P l2 -> map f l1 = map f l2 -> l1 = l2.
Proof.
  intros Hf. induction l1 as [|x l1 IH]; intros [|y l2] H1 H2 E; try discriminate E.
  - reflexivity.
  - inversion H1; subst. inversion H2; subst. simpl in E. injection E as Exy E.
    f_equal; [apply Hf; assumption | apply IH; assumption].
Qed.

Lemma lossless_fixed_table {A B} (parser : M B) w (dec : list byte -> A) build :
  fixed_table parser w dec build ->
  (forall l1 l2, build l1 = build l2 -> l1 = l2) ->
  (forall c1 c2, length c1 = w -> length c2 = w -> dec c1 = dec c2 -> c1 = c2) ->
  lossless parser.
Proof.
  intros Ht Hb Hd fp1 fp2 a fp1' fp2' H1 H2.
  destruct (fixed_table_Ok_inv parser w dec build _ _ _ Ht H1)
    as (n1 & _ & Hc1 & Hr1 & -> & ->).
  destruct (fixed_table_Ok_inv parser w dec build _ _ _ Ht H2)
    as (n2 & _ & Hc2 & Hr2 & E & ->).
  apply Hb in E.
  assert (Hn : n1 = n2).
  { apply (f_equal (@length A)) in E. rewrite !length_map, !length_chunks in E.
    exact E. }
  subst n2. exists (2 + n1 * w). split; [reflexivity|]. split; [reflexivity|].
  unfold remaining in Hr1, Hr2.
  rewrite !firstn_plus. f_equal.
  - apply be_uint_inj; [rewrite !length_firstn; lia | congruence].
  - rewrite <- !concat_chunks. f_equal.
    apply (map_inj_on dec (fun c => length c = w)).
    + intros x y Hx Hy. apply Hd; assumption.
    + apply chunks_full. rewrite length_skipn. lia.
    + apply chunks_full. rewrite length_skipn. lia.
    + exact E.
Qed.

Lemma pieces_inj (c1 c2 : list byte) :
  length c1 = length c2 ->
  be_uint 0 (firstn 2 c1) = be_uint 0 (firstn 2 c2) ->
  skipn 2 c1 = skipn 2 c2 ->
  c1 = c2.
Proof.
  intros Hl Hb Hs. rewrite <- (firstn_skipn 2 c1), <- (firstn_skipn 2 c2).
  f_equal; [|exact Hs].
  apply be_uint_inj; [rewrite !length_firstn; lia | exact Hb].
Qed.

Lemma nil_of_length (c1 c2 : list byte) :
  length c1 = 0 -> length c2 = 0 -> c1 = c2.
Proof. destruct c1, c2; simpl; intros; try discriminate; reflexivity. Qed.

Ltac pieces :=
  repeat first
    [ apply nil_of_length; rewrite ?length_skipn; lia
    | apply pieces_inj; [rewrite ?length_skipn; lia | assumption |] ].

(** X2: the tables of raw integers lose nothing: two bodies that decode
    to the same table agree on every byte that was read, the count
    included. *)
Theorem raw_tables_are_lossless name cp :
  lossless (Attribute_Exceptions_parse name cp) /\
  lossless (Attribute_LineNumberTable_parse name cp) /\
  lossless (Attribute_LocalVariableTable_parse name cp) /\
  lossless (Attribute_LocalVariableTypeTable_parse name cp).
Proof.
  pose proof (fixed_table_Exceptions name cp) as T1.
  pose proof (fixed_table_LineNumberTable name cp) as T2.
  pose proof (fixed_table_LocalVariableTable name cp) as T3.
  pose proof (fixed_table_LocalVariableTypeTable name cp) as T4.
  refine (conj _ (conj _ (conj _ _))).
  - apply (lossless_fixed_table _ _ _ _ T1).
    + intros l1 l2 E. injection E as E. exact E.
    + intros c1 c2 L1 L2 E. apply be_uint_inj; congruence.
  - apply (lossless_fixed_table _ _ _ _ T2).
    + intros l1 l2 E. injection E as E. exact E.
    + intros c1 c2 L1 L2 E. unfold LineNumber_of_bytes in E.
      injection E as E1 E2. pieces.
  - apply (lossless_fixed_table _ _ _ _ T3).
    + intros l1 l2 E. injection E as E. exact E.
    + intros c1 c2 L1 L2 E. unfold LocalVariable_of_bytes in E.
      injection E as E1 E2 E3 E4 E5. pieces.
  - apply (lossless_fixed_table _ _ _ _ T4).
    + intros l1 l2 E. injection E as E. exact E.
    + intros c1 c2 L1 L2 E. unfold LocalVariableType_of_bytes in E.
      injection E as E1 E2 E3 E4 E5. pieces.
Qed.

Lemma u16_firstn_2 (c : list byte) : u16 (be_uint 0 (firstn 2 c)).
Proof. apply be_uint_u16. rewrite length_firstn. lia. Qed.

Lemma chunks_short w n : forall b, Forall (fun c => length c <= w) (chunks w n b).
Proof.
  induction n as [|n IH]; intros b; simpl; constructor.
  - rewrite length_firstn. lia.
  - apply IH.
Qed.

(** X3: every integer a table of raw integers returns is an unsigned
    16-bit value, and a table has fewer than 65536 entries. *)
Theorem raw_tables_hold_u16 name cp fp fp' :
  (forall t,
     Attribute_Exceptions_parse name cp fp = Ok (Attribute_Exceptions name t, fp') ->
     (Z.of_nat (length t) < 65536)%Z /\ Forall u16 t) /\
  (forall t,
     Attribute_LineNumberTable_parse name cp fp =
       Ok (Attribute_LineNumberTable name t, fp') ->
     (Z.of_nat (length t) < 65536)%Z /\
     Forall (fun e => u16 (ln_start_pc e) /\ u16 (ln_line_number e)) t) /\
  (forall t,
     Attribute_LocalVariableTable_parse name cp fp =
       Ok (Attribute_LocalVariableTable name t, fp') ->
     (Z.of_nat (length t) < 65536)%Z /\
     Forall (fun e => u16 (lv_start_pc e) /\ u16 (lv_line_number e) /\
                      u16 (lv_name_index e) /\ u16 (lv_descriptor_index e) /\
                      u16 (lv_index e)) t) /\
  (forall t,
     Attribute_LocalVariableTypeTable_parse name cp fp =
       Ok (Attribute_LocalVariableTypeTable name t, fp') ->
     (Z.of_nat (length t) < 65536)%Z /\
     Forall (fun e => u16 (lvt_start_pc e) /\ u16 (lvt_line_number e) /\
                      u16 (lvt_name_index e) /\ u16 (lvt_signature_index e) /\
                      u16 (lvt_index e)) t).
Proof.
  pose proof (fixed_table_Exceptions name cp) as T1.
  pose proof (fixed_table_LineNumberTable name cp) as T2.
  pose proof (fixed_table_LocalVariableTable name cp) as T3.
  pose proof (fixed_table_LocalVariableTypeTable name cp) as T4.
  refine (conj _ (conj _ (conj _ _))); intros t H.
  - destruct (fixed_table_Ok_inv _ _ _ _ _ _ _ T1 H) as (n & Hn & _ & _ & E & _).
    injection E as ->. rewrite length_map, length_chunks. split; [exact Hn|].
    apply Forall_map. eapply Forall_impl; [|apply chunks_short].
    intros c Hc. apply be_uint_u16. exact Hc.
  - destruct (fixed_table_Ok_inv _ _ _ _ _ _ _ T2 H) as (n & Hn & _ & _ & E & _).
    injection E as ->. rewrite length_map, length_chunks. split; [exact Hn|].
    apply Forall_map, Forall_forall. intros c _. simpl.
    repeat split; apply u16_firstn_2.
  - destruct (fixed_table_Ok_inv _ _ _ _ _ _ _ T3 H) as (n & Hn & _ & _ & E & _).
    injection E as ->. rewrite length_map, length_chunks. split; [exact Hn|].
    apply Forall_map, Forall_forall. intros c _. simpl.
    repeat split; apply u16_firstn_2.
  - destruct (fixed_table_Ok_inv _ _ _ _ _ _ _ T4 H) as (n & Hn & _ & _ & E & _).
    injection E as ->. rewrite length_map, length_chunks. split; [exact Hn|].
    apply Forall_map, Forall_forall. intros c _. simpl.
    repeat split; apply u16_firstn_2.
Qed.

(** ** The variants that resolve constant-pool indices *)

Lemma getitem_nth {A} (lst : list A) (i : Z) x :
  (1 <= i)%Z -> nth_error lst (Z.to_nat (i - 1)) = Some x ->
  getitem lst (i - 1) = Ok x.
Proof.
  intros Hi Hn.
  assert (Hlt : Z.to_nat (i - 1) < length lst).
  { apply nth_error_Some. rewrite Hn. discriminate. }
  unfold getitem.
  destruct (Z.ltb_spec (i - 1) 0); [lia|].
  destruct (Z.ltb_spec (i - 1) 0); [lia|].
  destruct (Z.leb_spec (Z.of_nat (length lst)) (i - 1)); [lia|].
  cbn [orb]. rewrite Hn. reflexivity.
Qed.

Lemma getitem_empty {A} (i : Z) : getitem (@nil A) i = Raise IndexError.
Proof.
  unfold getitem. cbn [length].
  destruct (i <? 0)%Z eqn:E.
  - destruct (Z.ltb_spec (i + Z.of_nat 0) 0); [reflexivity|].
    apply Z.ltb_lt in E. lia.
  - rewrite E. destruct (Z.leb_spec (Z.of_nat 0) i); [reflexivity|].
    apply Z.ltb_ge in E. lia.
Qed.

Lemma bind_read_H {B} (k : Z -> M B) fp :
  bind read_H k fp =
    if 2 <=? remaining fp
    then k (be_uint 0 (firstn 2 (unread fp))) (advance fp 2)
    else Raise struct_error.
Proof.
  unfold bind. rewrite (fixed_entry_read_H fp).
  destruct (2 <=? remaining fp); reflexivity.
Qed.

Lemma one_index_intro (build : Constant -> Attribute) :
  one_index
    (fun cp => bind read_H (fun index =>
               bind (lift (getitem cp (index - 1))) (fun c => ret (build c))))
    build.
Proof.
  intros cp fp. rewrite bind_read_H. split.
  - intros H. destruct (Nat.leb_spec 2 (remaining fp)); [lia|reflexivity].
  - intros H. destruct (Nat.leb_spec 2 (remaining fp)); [|lia].
    cbv zeta. unfold bind, lift, ret.
    refine (conj _ (conj _ (conj _ _))).
    + intros c Hi Hn. rewrite (getitem_nth cp _ c Hi Hn). reflexivity.
    + intros Hi. rewrite (getitem_beyond cp _ Hi). reflexivity.
    + intros l x -> ->. rewrite getitem_zero_wraps. reflexivity.
    + intros -> ->. rewrite getitem_empty. reflexivity.
Qed.

(** X4: ConstantValue, Signature, SourceFile, ModuleMainClass and NestHost
    all read one 2-byte index and resolve it with [constant_pool[index - 1]]:
    a body of fewer than two bytes raises [struct.error], an index from 1 to
    the length of the pool yields the entry at that 1-based place, a larger
    index raises [IndexError], and index 0 yields the last entry of the
    pool. *)
Theorem single_index_variants name :
  one_index (Attribute_ConstantValue_parse name) (Attribute_ConstantValue name) /\
  one_index (Attribute_Signature_parse name) (Attribute_Signature name) /\
  one_index (Attribute_SourceFile_parse name) (Attribute_SourceFile name) /\
  one_index (Attribute_ModuleMainClass_parse name) (Attribute_ModuleMainClass name) /\
  one_index (Attribute_NestHost_parse name) (Attribute_NestHost name).
Proof.
  refine (conj _ (conj _ (conj _ (conj _ _)))).
  - apply (one_index_intro (Attribute_ConstantValue name)).
  - apply (one_index_intro (Attribute_Signature name)).
  - apply (one_index_intro (Attribute_SourceFile name)).
  - apply (one_index_intro (Attribute_ModuleMainClass name)).
  - apply (one_index_intro (Attribute_NestHost name)).
Qed.

(** X5: EnclosingMethod needs four bytes, two 2-byte indices; with fewer
    it raises [struct.error].  Both indices are resolved, the class index
    first, so a failing class index decides the exception; when both resolve
    the attribute holds the two entries and two bytes more than a
    single-index variant are consumed. *)
Theorem EnclosingMethod_behaviour name cp fp :
  (remaining fp < 4 ->
   Attribute_EnclosingMethod_parse name cp fp = Raise struct_error) /\
  (4 <= remaining fp ->
   let class_index := be_uint 0 (firstn 2 (unread fp)) in
   let method_index := be_uint 0 (firstn 2 (skipn 2 (unread fp))) in
   (forall e, getitem cp (class_index - 1) = Raise e ->
      Attribute_EnclosingMethod_parse name cp fp = Raise e) /\
   (forall c e, getitem cp (class_index - 1) = Ok c ->
      getitem cp (method_index - 1) = Raise e ->
      Attribute_EnclosingMethod_parse name cp fp = Raise e) /\
   (forall c m, getitem cp (class_index - 1) = Ok c ->
      getitem cp (method_index - 1) = Ok m ->
      Attribute_EnclosingMethod_parse name cp fp =
        Ok (Attribute_EnclosingMethod name c m, advance fp 4))).
Proof.
  unfold Attribute_EnclosingMethod_parse.
  pose proof (fixed_entry_read_unpack [fmt_H; fmt_H] fp) as E.
  simpl calcsize in E. cbn [unpack_from fmt_size] in E.
  assert (E1 : firstn 2 (firstn 4 (unread fp)) = firstn 2 (unread fp)).
  { rewrite firstn_firstn. reflexivity. }
  assert (E2 : firstn 2 (skipn 2 (firstn 4 (unread fp))) =
               firstn 2 (skipn 2 (unread fp))).
  { rewrite skipn_firstn_comm, firstn_firstn. reflexivity. }
  rewrite E1, E2 in E. unfold bind, lift, ret. rewrite E. clear E E1 E2. split.
  - intros H. destruct (Nat.leb_spec 4 (remaining fp)); [lia|reflexivity].
  - intros H. destruct (Nat.leb_spec 4 (remaining fp)); [|lia].
    cbv zeta. refine (conj _ (conj _ _)).
    + intros e ->. reflexivity.
    + intros c e -> ->. reflexivity.
    + intros c m -> ->. reflexivity.
Qed.

(** X6: through [Attribute.parse], SourceDebugExtension cannot fail once
    the name is resolved: it returns the body that was read, all of it and
    nothing else, as the debug extension; that is the declared body of the
    input byte for byte wherever the input holds all of it. *)
Theorem SourceDebugExtension_keeps_body cp fp name_index attribute_length name :
  header fp = Ok [name_index; attribute_length] ->
  getitem cp (name_index - 1) = Ok name ->
  value name = Some "SourceDebugExtension"%string ->
  Attribute_parse cp fp =
    Ok (Attribute_SourceDebugExtension name (body fp attribute_length),
        advance fp (6 + length (body fp attribute_length))) /\
  forall hdr info post,
    unread fp = hdr ++ info ++ post ->
    length hdr = 6 ->
    attribute_length = Z.of_nat (length info) ->
    body fp attribute_length = info.
Proof.
  intros Hh Hg Hv. split.
  - rewrite Attribute_parse_eq, (parse_body_eq _ _ _ _ _ _ Hh Hg). cbv zeta.
    rewrite Hv. reflexivity.
  - intros hdr info post Hu Hl ->. unfold body.
    rewrite Hu, <- Hl, skipn_exact, Nat2Z.id. apply firstn_exact.
Qed.

(** X9: the loop over the subclasses selects a class exactly when the
    class is not [UnknownAttribute] and is called [Attribute_] followed by
    the name: no class shadows another, and no name selects
    [UnknownAttribute]. *)
Theorem dispatch_is_exact v c :
  lookup_subclass v = Some c <->
  c <> cls_UnknownAttribute /\ __name__ c = String.append "Attribute_" v.
Proof.
  split.
  - intros H. apply lookup_subclass_Some in H. tauto.
  - intros [Hc Hn].
    destruct c; try congruence; simpl in Hn; injection Hn as <-; reflexivity.
Qed.

(** X12: the failures of [Attribute.parse] before any body is looked at.
    With fewer than six unread bytes, none included, it raises
    [struct.error] whatever the pool; with a name index above the length of
    the pool it raises [IndexError] whatever the length field and the body
    are; and a name entry without a [value] raises [AttributeError]. *)
Theorem parse_fails_early cp fp :
  (remaining fp < 6 -> Attribute_parse cp fp = Raise struct_error) /\
  (forall name_index attribute_length,
     header fp = Ok [name_index; attribute_length] ->
     (Z.of_nat (length cp) < name_index)%Z ->
     Attribute_parse cp fp = Raise IndexError) /\
  (forall name_index attribute_length name,
     header fp = Ok [name_index; attribute_length] ->
     getitem cp (name_index - 1) = Ok name ->
     value name = None ->
     Attribute_parse cp fp = Raise AttributeError).
Proof.
  refine (conj _ (conj _ _)).
  - apply Attribute_parse_short_header.
  - intros ni len Hh Hi. exact (Attribute_parse_name_beyond cp fp ni len Hh Hi).
  - intros ni len name Hh Hg Hv.
    rewrite Attribute_parse_eq, (parse_body_eq _ _ _ _ _ _ Hh Hg). cbv zeta.
    rewrite Hv. reflexivity.
Qed.

(** ** How much a decoder consumes *)

Lemma Attribute_parse_consumes cp fp a fp' :
  Attribute_parse cp fp = Ok (a, fp') ->
  exists k, fp' = advance fp k /\ 6 <= k <= remaining fp.
Proof.
  intros H.
  destruct (Attribute_parse_Ok_inv _ _ _ _ H) as (ni & len & _ & _ & Hh & _ & _ & -> & _).
  destruct (header_Ok_inv _ _ Hh) as (H6 & _).
  exists (6 + length (body fp len)). split; [reflexivity|].
  rewrite length_body. lia.
Qed.

Lemma for_range_consumes {A} (entry : M A) m :
  (forall fp a fp', entry fp = Ok (a, fp') ->
     exists k, fp' = advance fp k /\ m <= k <= remaining fp) ->
  forall n acc fp l fp',
    for_range n entry acc fp = Ok (l, fp') ->
    exists k, fp' = advance fp k /\ n * m <= k <= remaining fp /\
              length l = length acc + n.
Proof.
  intros He. induction n as [|n IH]; intros acc fp l fp' H.
  - apply ret_Ok_inv in H. destruct H as [-> ->]. exists 0.
    rewrite advance_0. repeat split; lia.
  - cbn [for_range] in H. apply bind_Ok_inv in H.
    destruct H as (x & f1 & H1 & H2).
    destruct (He _ _ _ H1) as (k1 & -> & Hk1).
    destruct (IH _ _ _ _ H2) as (k2 & -> & Hk2 & Hl).
    rewrite remaining_advance in Hk2. rewrite length_app in Hl. simpl in Hl.
    exists (k1 + k2). rewrite advance_advance. repeat split; lia.
Qed.

(** X11: of two attributes decoded one after the other, the first had
    its whole declared body in the buffer: only the last attribute before
    the end of the buffer can have been cut short. *)
Theorem only_the_last_attribute_is_cut_short cp fp a1 fp1 a2 fp2 :
  Attribute_parse cp fp = Ok (a1, fp1) ->
  Attribute_parse cp fp1 = Ok (a2, fp2) ->
  exists name_index attribute_length,
    header fp = Ok [name_index; attribute_length] /\
    length (body fp attribute_length) = Z.to_nat attribute_length /\
    fp1 = advance fp (6 + Z.to_nat attribute_length).
Proof.
  intros H1 H2.
  destruct (Attribute_parse_Ok_inv _ _ _ _ H1)
    as (ni & len & _ & _ & Hh & _ & _ & -> & _).
  destruct (Attribute_parse_consumes _ _ _ _ H2) as (k & _ & Hk).
  rewrite remaining_advance in Hk.
  pose proof (length_body fp len) as Hb.
  exists ni, len. split; [exact Hh|].
  assert (Hl : length (body fp len) = Z.to_nat len) by lia.
  split; [exact Hl|]. rewrite Hl. reflexivity.
Qed.

Lemma be_uint_u32 b : length b <= 4 -> (0 <= be_uint 0 b < 4294967296)%Z.
Proof.
  intros Hl. pose proof (be_uint_range b) as H.
  assert (256 ^ Z.of_nat (length b) <= 256 ^ 4)%Z by (apply Z.pow_le_mono_r; lia).
  change (256 ^ 4)%Z with 4294967296%Z in *. lia.
Qed.

Lemma unpack_from_u16 n : forall b,
  Forall u16 (unpack_from (repeat fmt_H n) b).
Proof.
  induction n as [|n IH]; intros b; simpl; constructor.
  - apply u16_firstn_2.
  - apply IH.
Qed.

Lemma bind_read_H_Ok_inv {B} (k : Z -> M B) fp b fp' :
  bind read_H k fp = Ok (b, fp') ->
  2 <= remaining fp /\
  u16 (be_uint 0 (firstn 2 (unread fp))) /\
  k (be_uint 0 (firstn 2 (unread fp))) (advance fp 2) = Ok (b, fp').
Proof.
  rewrite bind_read_H. destruct (Nat.leb_spec 2 (remaining fp)) as [Hle|Hlt];
    [|discriminate].
  intros H. split; [assumption|]. split; [apply u16_firstn_2 | exact H].
Qed.

Lemma for_range_fixed_Ok_inv {A} (entry : M A) w (dec : list byte -> A) n acc fp l fp' :
  fixed_entry entry w dec ->
  for_range n entry acc fp = Ok (l, fp') ->
  n * w <= remaining fp /\
  l = acc ++ map dec (chunks w n (unread fp)) /\
  fp' = advance fp (n * w).
Proof.
  intros He H. rewrite (for_range_fixed entry w dec He) in H.
  destruct (Nat.leb_spec (n * w) (remaining fp)) as [Hle|Hlt]; [|discriminate].
  inversion H. repeat split; assumption || reflexivity.
Qed.

(** X10: a decoded Code attribute fits the bytes it was read from.  Its
    stack and locals counts are unsigned 16-bit values; its bytecode is as
    long as the 4-byte length field says; its exception table has fewer than
    65536 entries of four unsigned 16-bit values each; it has fewer than
    65536 nested attributes; and the decoder has consumed at least the 12
    bytes of fixed fields, the bytecode, 8 bytes per exception entry and 6
    bytes per nested attribute, and never more than the body holds. *)
Theorem Code_fits_its_body name cp fp a fp' :
  Attribute_Code_parse Attribute_parse name cp fp = Ok (a, fp') ->
  exists max_stack max_locals code exception_table attributes k,
    a = Attribute_Code name max_stack max_locals code exception_table attributes /\
    u16 max_stack /\ u16 max_locals /\
    Z.of_nat (length code) = be_uint 0 (firstn 4 (skipn 4 (unread fp))) /\
    (Z.of_nat (length exception_table) < 65536)%Z /\
    Forall (fun entry => length entry = 4 /\ Forall u16 entry) exception_table /\
    (Z.of_nat (length attributes) < 65536)%Z /\
    fp' = advance fp k /\
    12 + length code + 8 * length exception_table + 6 * length attributes <= k /\
    k <= remaining fp.
Proof.
  intros H. unfold Attribute_Code_parse in H.
  apply bind_Ok_inv in H. destruct H as (t & f1 & H1 & H).
  apply read_unpack_Ok_inv in H1. destruct H1 as (Hl1 & -> & ->).
  simpl calcsize in *. rewrite length_firstn in Hl1.
  cbn [unpack_from fmt_size] in H.
  assert (Ecl : firstn 4 (skipn 2 (skipn 2 (firstn 8 (unread fp)))) =
                firstn 4 (skipn 4 (unread fp))).
  { rewrite skipn_skipn. simpl Nat.add. rewrite skipn_firstn_comm, firstn_firstn.
    reflexivity. }
  rewrite Ecl in H. clear Ecl.
  pose proof (u16_firstn_2 (firstn 8 (unread fp))) as Ums.
  pose proof (u16_firstn_2 (skipn 2 (firstn 8 (unread fp)))) as Uml.
  assert (Ucl : (0 <= be_uint 0 (firstn 4 (skipn 4 (unread fp))) < 4294967296)%Z).
  { apply be_uint_u32. rewrite length_firstn. lia. }
  set (max_stack := be_uint 0 (firstn 2 (firstn 8 (unread fp)))) in *.
  set (max_locals := be_uint 0 (firstn 2 (skipn 2 (firstn 8 (unread fp))))) in *.
  set (code_length := be_uint 0 (firstn 4 (skipn 4 (unread fp)))) in *.
  apply bind_Ok_inv in H. destruct H as (code & f2 & H2 & H).
  rewrite read_eq in H2. injection H2 as <- <-.
  set (code := firstn (Z.to_nat code_length) (unread (advance fp 8))) in *.
  assert (Hcode : length code = Nat.min (Z.to_nat code_length) (remaining fp - 8)).
  { subst code. rewrite length_firstn, unread_advance, length_skipn. reflexivity. }
  apply bind_read_H_Ok_inv in H. destruct H as (Hmore & Une & H).
  set (n_e := be_uint 0 (firstn 2 (unread (advance (advance fp 8) (length code))))) in *.
  apply bind_Ok_inv in H. destruct H as (et & f4 & H4 & H).
  apply (for_range_fixed_Ok_inv _ 8 (unpack_from [fmt_H; fmt_H; fmt_H; fmt_H])) in H4;
    [|apply (fixed_entry_read_unpack [fmt_H; fmt_H; fmt_H; fmt_H])].
  destruct H4 as (Het & -> & ->). simpl app in H.
  apply bind_read_H_Ok_inv in H. destruct H as (Hcnt & Una & H).
  match type of Una with u16 ?z => set (n_a := z) in * end.
  apply bind_Ok_inv in H. destruct H as (attrs & f6 & H6 & H).
  apply ret_Ok_inv in H. destruct H as [-> ->].
  destruct (for_range_consumes (Attribute_parse cp) 6
              (Attribute_parse_consumes cp) _ _ _ _ _ H6) as (k6 & -> & Hk6 & Hlen).
  simpl in Hlen.
  rewrite !remaining_advance in *. rewrite !advance_advance.
  unfold u16 in Une, Una.
  eexists max_stack, max_locals, code, _, attrs, _.
  split; [reflexivity|]. split; [exact Ums|]. split; [exact Uml|].
  split; [lia|].
  split; [rewrite length_map, length_chunks; lia|].
  split.
  { apply Forall_map, Forall_forall. intros c _. split.
    - reflexivity.
    - apply (unpack_from_u16 4). }
  split; [lia|]. split; [reflexivity|].
  rewrite length_map, length_chunks. lia.
Qed.

(** ** Where the constants of a decoded attribute come from *)

Lemma getitem_In {A} (lst : list A) i x : getitem lst i = Ok x -> In x lst.
Proof.
  unfold getitem. destruct (_ || _); [discriminate|].
  destruct (nth_error lst _) as [y|] eqn:E; [|discriminate].
  intros H. injection H as <-. eapply nth_error_In. exact E.
Qed.

Lemma for_range_Forall {A} (entry : M A) (P : A -> Prop) :
  local entry ->
  forall n fp acc l fp',
    (forall m a f, entry (advance fp m) = Ok (a, f) -> P a) ->
    Forall P acc ->
    for_range n entry acc fp = Ok (l, fp') ->
    Forall P l.
Proof.
  intros Hl. induction n as [|n IH]; intros fp acc l fp' He Hacc H.
  - apply ret_Ok_inv in H. destruct H as [-> _]. exact Hacc.
  - cbn [for_range] in H. apply bind_Ok_inv in H.
    destruct H as (x & f1 & H1 & H2).
    destruct (local_advance _ _ _ _ Hl H1) as (k & ->).
    apply (IH (advance fp k) (acc ++ [x]) l fp').
    + intros m a f. rewrite advance_advance. apply He.
    + apply Forall_app. split; [exact Hacc|]. constructor; [|constructor].
      apply (He 0 x (advance fp k)). rewrite advance_0. exact H1.
    + exact H2.
Qed.

Lemma lift_getitem_In (cp : list Constant) i fp c fp' :
  lift (getitem cp i) fp = Ok (c, fp') -> In c cp.
Proof.
  intros H. apply lift_Ok_inv in H. destruct H as [H _].
  eapply getitem_In. exact H.
Qed.

Lemma read_constant_In cp fp c fp' :
  read_constant cp fp = Ok (c, fp') -> In c cp.
Proof.
  unfold read_constant. intros H. apply bind_Ok_inv in H.
  destruct H as (i & f1 & _ & H). eapply lift_getitem_In. exact H.
Qed.

Lemma InnerClasses_entry_In cp fp c fp' :
  InnerClasses_entry cp fp = Ok (c, fp') ->
  Forall (fun x => In x cp) [inner_class_info c; outer_class_info c; inner_name c].
Proof.
  unfold InnerClasses_entry. intros H. inv_M H. simpl.
  repeat constructor; eapply lift_getitem_In; eassumption.
Qed.

Lemma BootstrapMethods_entry_In cp fp m fp' :
  BootstrapMethods_entry cp fp = Ok (m, fp') ->
  Forall (fun x => In x cp) (fst m :: snd m).
Proof.
  unfold BootstrapMethods_entry. intros H. inv_M H. simpl. constructor.
  - eapply lift_getitem_In. eassumption.
  - eapply (for_range_Forall (read_constant cp)); [apply local_read_constant | |
      constructor | eassumption].
    intros k c f. apply read_constant_In.
Qed.

Lemma parse_variant_constants rec c name cp fp a fp' :
  In name cp ->
  local (rec cp) ->
  (forall m x f, rec cp (advance fp m) = Ok (x, f) ->
     Forall (fun y => In y cp) (constants_of x)) ->
  _parse rec c name cp fp = Ok (a, fp') ->
  Forall (fun y => In y cp) (constants_of a).
Proof.
  intros Hname Hl Hrec H. destruct c; simpl in H;
    unfold Attribute_ConstantValue_parse, Attribute_Code_parse,
      Attribute_Exceptions_parse, Attribute_InnerClasses_parse,
      Attribute_EnclosingMethod_parse, Attribute_Synthetic_parse,
      Attribute_Signature_parse, Attribute_SourceFile_parse,
      Attribute_SourceDebugExtension_parse, Attribute_LineNumberTable_parse,
      Attribute_LocalVariableTable_parse, Attribute_LocalVariableTypeTable_parse,
      Attribute_Deprecated_parse, Attribute_BootstrapMethods_parse,
      Attribute_ModulePackages_parse, Attribute_ModuleMainClass_parse,
      Attribute_NestHost_parse in H;
    try discriminate H; inv_M H; cbn [constants_of];
    (constructor; [exact Hname|]);
    try (repeat constructor; eapply lift_getitem_In; eassumption).
  - (* Code *)
    apply Forall_flat_map.
    repeat match goal with
           | Hx : ?c0 ?f0 = Ok (_, ?f1) |- _ =>
               is_var f1;
               let k := fresh "k" in
               let Hk := fresh "Hk" in
               assert (Hk : exists k, f1 = advance f0 k)
                 by (eapply local_advance; [|exact Hx]; solve_local; exact Hl);
               destruct Hk as (k & ->)
           end.
    rewrite ?advance_advance in *.
    eapply (for_range_Forall (rec cp)); [exact Hl | | constructor | eassumption].
    intros m x f. rewrite advance_advance. apply Hrec.
  - (* InnerClasses *)
    apply Forall_flat_map.
    eapply (for_range_Forall (InnerClasses_entry cp));
      [unfold InnerClasses_entry; solve_local | | constructor | eassumption].
    intros k c f. apply InnerClasses_entry_In.
  - (* BootstrapMethods *)
    apply Forall_flat_map.
    eapply (for_range_Forall (BootstrapMethods_entry cp));
      [unfold BootstrapMethods_entry, read_constant; solve_local | | constructor
      | eassumption].
    intros k c f. apply BootstrapMethods_entry_In.
  - (* ModulePackages *)
    eapply (for_range_Forall (read_constant cp));
      [apply local_read_constant | | constructor | eassumption].
    intros k c f. apply read_constant_In.
Qed.

(** X7: a decoded attribute holds no constant that is not an entry of the
    constant pool it was decoded against: its name, every constant a variant
    resolved, and the same for the attributes nested in a Code attribute. *)
Theorem constants_come_from_the_pool cp fp a fp' :
  Attribute_parse cp fp = Ok (a, fp') ->
  Forall (fun c => In c cp) (constants_of a).
Proof.
  assert (H : forall N fp a fp', length (getvalue fp) <= N ->
                Attribute_parse cp fp = Ok (a, fp') ->
                Forall (fun c => In c cp) (constants_of a)).
  { induction N as [|N IH]; intros f0 a0 f0' HN H0;
      destruct (Attribute_parse_Ok_inv _ _ _ _ H0)
        as (ni & len & name & v & Hh & Hg & Hv & _ & Hd);
      destruct (header_Ok_inv _ _ Hh) as (H6 & _);
      pose proof (remaining_le f0) as Hle.
    - lia.
    - apply getitem_In in Hg.
      destruct (lookup_subclass v) as [c|].
      + apply run_Ok_inv in Hd. destruct Hd as (fpi & Hd).
        apply (parse_variant_constants Attribute_parse c name cp _ _ _ Hg
                 (local_Attribute_parse cp)) in Hd; [exact Hd|].
        intros m x f. apply IH. simpl. rewrite length_body. lia.
      + subst a0. simpl. constructor; [exact Hg|constructor]. }
  apply (H (length (getvalue fp))). lia.
Qed.

(** ** The exceptions a decoder can raise *)

Lemma bind_Raise_inv {A B} (c : M A) (k : A -> M B) fp e :
  bind c k fp = Raise e ->
  c fp = Raise e \/ exists a fp1, c fp = Ok (a, fp1) /\ k a fp1 = Raise e.
Proof.
  unfold bind. destruct (c fp) as [[a fp1]|e0|]; try discriminate.
  - intros H. right. eauto.
  - intros H. injection H as ->. left. reflexivity.
Qed.

Lemma getitem_Raise {A} (lst : list A) i e : getitem lst i = Raise e -> e = IndexError.
Proof.
  unfold getitem. destruct (_ || _).
  - intros H. injection H as <-. reflexivity.
  - destruct (nth_error lst _); [discriminate|].
    intros H. injection H as <-. reflexivity.
Qed.

Lemma fixed_entry_Raise {A} (entry : M A) w dec fp e :
  fixed_entry entry w dec -> entry fp = Raise e -> e = struct_error.
Proof.
  intros He H. rewrite (He fp) in H.
  destruct (w <=? remaining fp); [discriminate|].
  injection H as <-. reflexivity.
Qed.

Lemma for_range_Raise_inv {A} (entry : M A) :
  local entry ->
  forall n acc fp e,
    for_range n entry acc fp = Raise e ->
    exists m, entry (advance fp m) = Raise e.
Proof.
  intros Hl. induction n as [|n IH]; intros acc fp e H.
  - discriminate H.
  - cbn [for_range] in H. apply bind_Raise_inv in H.
    destruct H as [H | (x & f1 & H1 & H2)].
    + exists 0. rewrite advance_0. exact H.
    + destruct (local_advance _ _ _ _ Hl H1) as (k & ->).
      destruct (IH _ _ _ H2) as (m & Hm). rewrite advance_advance in Hm. eauto.
Qed.

Lemma bind_read_unpack {B} f (k : list Z -> M B) fp :
  bind (read_unpack f (calcsize f)) k fp =
    if calcsize f <=? remaining fp
    then k (unpack_from f (firstn (calcsize f) (unread fp))) (advance fp (calcsize f))
    else Raise struct_error.
Proof.
  unfold bind. rewrite (fixed_entry_read_unpack f fp).
  destruct (calcsize f <=? remaining fp); reflexivity.
Qed.

Lemma bind_lift {A B} (r : outcome A) (k : A -> M B) fp :
  bind (lift r) k fp =
    match r with
    | Ok a => k a fp
    | Raise e => Raise e
    | OutOfFuel => OutOfFuel
    end.
Proof. unfold bind, lift. destruct r; reflexivity. Qed.

(** Work a raising chain of fixed reads and pool lookups down to its
    cause. *)
Ltac raise_step H :=
  match type of H with
  | bind read_H _ _ = Raise _ =>
      rewrite bind_read_H in H;
      match type of H with
      | (if ?b then _ else _) = _ =>
          destruct b; [|injection H as <-; left; reflexivity]
      end
  | bind (read_unpack ?f _) ?k ?fp = Raise _ =>
      let E := fresh "E" in
      pose proof (bind_read_unpack f k fp) as E; simpl calcsize in E;
      rewrite E in H; clear E; cbn [unpack_from fmt_size] in H;
      match type of H with
      | (if ?b then _ else _) = _ =>
          destruct b; [|injection H as <-; left; reflexivity]
      end
  | bind (lift (getitem ?l ?i)) _ _ = Raise _ =>
      let G := fresh "G" in
      rewrite bind_lift in H; destruct (getitem l i) eqn:G;
      [ | injection H as <-; right; eapply getitem_Raise; exact G
        | discriminate H ]
  | lift (getitem ?l ?i) _ = Raise _ =>
      let G := fresh "G" in
      unfold lift in H; destruct (getitem l i) eqn:G;
      [ discriminate H | injection H as <-; right; eapply getitem_Raise; exact G
        | discriminate H ]
  | ret _ _ = Raise _ => discriminate H
  end.

Ltac raise_steps H := repeat raise_step H.

Lemma read_constant_Raise cp fp e : read_constant cp fp = Raise e -> plain e.
Proof. unfold read_constant, plain. intros H. raise_steps H. Qed.

Lemma InnerClasses_entry_Raise cp fp e : InnerClasses_entry cp fp = Raise e -> plain e.
Proof. unfold InnerClasses_entry, plain. intros H. raise_steps H. Qed.

Lemma BootstrapMethods_entry_Raise cp fp e :
  BootstrapMethods_entry cp fp = Raise e -> plain e.
Proof.
  unfold BootstrapMethods_entry, plain. intros H. raise_steps H.
  apply bind_Raise_inv in H. destruct H as [H | (args & f1 & _ & H)].
  - apply for_range_Raise_inv in H; [|apply local_read_constant].
    destruct H as (m & H). eapply read_constant_Raise. exact H.
  - raise_steps H.
Qed.

Lemma table_Raise {A B} (entry : M A) (build : list A -> B) fp e :
  local entry ->
  (forall f x, entry f = Raise x -> plain x) ->
  bind read_H (fun n =>
    bind (for_range (Z.to_nat n) entry []) (fun t => ret (build t))) fp = Raise e ->
  plain e.
Proof.
  intros Hl He H. unfold plain. raise_steps H.
  apply bind_Raise_inv in H. destruct H as [H | (t & f1 & _ & H)].
  - apply for_range_Raise_inv in H; [|exact Hl].
    destruct H as (m & H). eapply He. exact H.
  - discriminate H.
Qed.

Lemma Code_parse_Raise rec name cp fp e :
  local (rec cp) ->
  Attribute_Code_parse rec name cp fp = Raise e ->
  plain e \/ exists m, rec cp (advance fp m) = Raise e.
Proof.
  intros Hl H. unfold Attribute_Code_parse in H.
  assert (P : forall x, x = struct_error \/ x = IndexError -> 
                 plain x \/ exists m, rec cp (advance fp m) = Raise x)
    by (intros x Hx; left; exact Hx).
  apply bind_Raise_inv in H. destruct H as [H | (t & f1 & H1 & H)].
  { left. left. eapply (fixed_entry_Raise _ _ _ _ _
                          (fixed_entry_read_unpack [fmt_H; fmt_H; fmt_I]) H). }
  apply read_unpack_Ok_inv in H1. destruct H1 as (_ & -> & ->).
  cbn [unpack_from fmt_size] in H.
  apply bind_Raise_inv in H. destruct H as [H | (code & f2 & H2 & H)];
    [discriminate H|].
  rewrite read_eq in H2. injection H2 as _ <-.
  apply bind_Raise_inv in H. destruct H as [H | (n_e & f3 & H3 & H)].
  { left. left. eapply (fixed_entry_Raise _ _ _ _ _ fixed_entry_read_H H). }
  apply read_H_Ok_inv in H3. destruct H3 as [_ ->].
  apply bind_Raise_inv in H. destruct H as [H | (et & f4 & H4 & H)].
  { apply for_range_Raise_inv in H; [|solve_local]. destruct H as (m & H).
    left. left.
    eapply (fixed_entry_Raise _ _ _ _ _
              (fixed_entry_read_unpack [fmt_H; fmt_H; fmt_H; fmt_H]) H). }
  apply (for_range_fixed_Ok_inv _ 8 (unpack_from [fmt_H; fmt_H; fmt_H; fmt_H])) in H4;
    [|apply (fixed_entry_read_unpack [fmt_H; fmt_H; fmt_H; fmt_H])].
  destruct H4 as (_ & _ & ->).
  apply bind_Raise_inv in H. destruct H as [H | (n_a & f5 & H5 & H)].
  { left. left. eapply (fixed_entry_Raise _ _ _ _ _ fixed_entry_read_H H). }
  apply read_H_Ok_inv in H5. destruct H5 as [_ ->].
  apply bind_Raise_inv in H. destruct H as [H | (attrs & f6 & _ & H)];
    [|discriminate H].
  apply for_range_Raise_inv in H; [|exact Hl]. destruct H as (m & H).
  rewrite !advance_advance in H. right. eauto.
Qed.

Lemma parse_variant_Raise rec c name cp fp e :
  local (rec cp) ->
  c <> cls_UnknownAttribute ->
  _parse rec c name cp fp = Raise e ->
  plain e \/ exists m, rec cp (advance fp m) = Raise e.
Proof.
  intros Hl Hc H.
  destruct c; try congruence; simpl in H;
    try (eapply Code_parse_Raise; eassumption); left;
    try (unfold Attribute_ConstantValue_parse, Attribute_Signature_parse,
           Attribute_SourceFile_parse, Attribute_ModuleMainClass_parse,
           Attribute_NestHost_parse, Attribute_EnclosingMethod_parse, plain in *;
         raise_steps H; fail);
    try discriminate H.
  - eapply (table_Raise read_H); [apply local_read_H | | exact H].
    intros f x Hx. left. eapply (fixed_entry_Raise _ _ _ _ _ fixed_entry_read_H Hx).
  - eapply (table_Raise (InnerClasses_entry cp));
      [unfold InnerClasses_entry; solve_local | | exact H].
    intros f x. apply InnerClasses_entry_Raise.
  - eapply (table_Raise LineNumberTable_entry);
      [unfold LineNumberTable_entry; solve_local | | exact H].
    intros f x Hx. left. eapply (fixed_entry_Raise _ _ _ _ _ fixed_entry_LineNumber Hx).
  - eapply (table_Raise LocalVariableTable_entry);
      [unfold LocalVariableTable_entry; solve_local | | exact H].
    intros f x Hx. left.
    eapply (fixed_entry_Raise _ _ _ _ _ fixed_entry_LocalVariable Hx).
  - eapply (table_Raise LocalVariableTypeTable_entry);
      [unfold LocalVariableTypeTable_entry; solve_local | | exact H].
    intros f x Hx. left.
    eapply (fixed_entry_Raise _ _ _ _ _ fixed_entry_LocalVariableType Hx).
  - eapply (table_Raise (BootstrapMethods_entry cp));
      [unfold BootstrapMethods_entry, read_constant; solve_local | | exact H].
    intros f x. apply BootstrapMethods_entry_Raise.
  - eapply (table_Raise (read_constant cp)); [apply local_read_constant | | exact H].
    intros f x. apply read_constant_Raise.
Qed.

Lemma run_Raise_inv {A} (c : M A) fp e : run c fp = Raise e -> c fp = Raise e.
Proof.
  unfold run. destruct (c fp) as [[a f]|e0|]; try discriminate.
  intros H. injection H as ->. reflexivity.
Qed.

(** X8: whatever the input, [Attribute.parse] raises nothing but
    [struct.error], [IndexError] or [AttributeError], the last only when the
    constant pool holds an entry without a [value].  In particular the call
    of a [_parse] with three arguments never reaches the two-argument
    [UnknownAttribute._parse], and no tuple is unpacked into the wrong number
    of names. *)
Theorem only_expected_exceptions cp fp e :
  Attribute_parse cp fp = Raise e -> expected cp e.
Proof.
  assert (H : forall N fp e, length (getvalue fp) <= N ->
                Attribute_parse cp fp = Raise e -> expected cp e).
  { induction N as [|N IH]; intros f0 e0 HN H0;
      pose proof (remaining_le f0) as Hle;
      rewrite Attribute_parse_eq in H0;
      destruct (header f0) as [t|x|] eqn:Hh.
    1, 4: destruct (header_Ok_inv _ _ Hh) as (H6 & _ & ni & len & ->).
    - lia.
    - destruct (getitem cp (ni - 1)) as [name|x|] eqn:Hg.
      + rewrite (parse_body_eq _ _ _ _ _ _ Hh Hg) in H0. cbv zeta in H0.
        destruct (value name) as [v|] eqn:Hv.
        * destruct (lookup_subclass v) as [c|] eqn:Hc; [|discriminate H0].
          destruct (run _ _) as [a|x|] eqn:Hr; try discriminate H0.
          injection H0 as ->. apply run_Raise_inv in Hr.
          apply lookup_subclass_Some in Hc. destruct Hc as (_ & Hc & _).
          apply parse_variant_Raise in Hr;
            [|apply local_Attribute_parse | exact Hc].
          destruct Hr as [[-> | ->] | (m & Hr)].
          -- left. reflexivity.
          -- right. left. reflexivity.
          -- apply IH in Hr; [exact Hr|]. simpl. rewrite length_body. lia.
        * injection H0 as <-. right. right. split; [reflexivity|].
          exists name. split; [eapply getitem_In; exact Hg | exact Hv].
      + rewrite (parse_body_name_Raise _ _ _ _ _ _ Hh Hg) in H0.
        injection H0 as <-. apply getitem_Raise in Hg. subst x.
        right. left. reflexivity.
      + destruct (getitem_not_OutOfFuel _ _ Hg).
    - rewrite (parse_body_header_Raise _ cp _ _ Hh) in H0. injection H0 as <-.
      apply header_Raise in Hh. destruct Hh as [-> _]. left. reflexivity.
    - destruct (header_not_OutOfFuel _ Hh).
    - rewrite (parse_body_header_Raise _ cp _ _ Hh) in H0. injection H0 as <-.
      apply header_Raise in Hh. destruct Hh as [-> _]. left. reflexivity.
    - destruct (header_not_OutOfFuel _ Hh). }
  apply (H (length (getvalue fp))). lia.
Qed.

(** ** How deep Code attributes nest *)

Lemma Code_parse_nested rec name cp fp a fp' (P : Attribute -> Prop) :
  local (rec cp) ->
  (forall m x f, 12 <= m -> rec cp (advance fp m) = Ok (x, f) -> P x) ->
  Attribute_Code_parse rec name cp fp = Ok (a, fp') ->
  12 <= remaining fp /\
  exists max_stack max_locals code exception_table attributes,
    a = Attribute_Code name max_stack max_locals code exception_table attributes /\
    Forall P attributes.
Proof.
  intros Hl Hrec H. unfold Attribute_Code_parse in H.
  apply bind_Ok_inv in H. destruct H as (t & f1 & H1 & H).
  apply read_unpack_Ok_inv in H1. destruct H1 as (Hl1 & -> & ->).
  simpl calcsize in *. rewrite length_firstn in Hl1.
  cbn [unpack_from fmt_size] in H.
  apply bind_Ok_inv in H. destruct H as (code & f2 & H2 & H).
  rewrite read_eq in H2. injection H2 as <- <-.
  apply bind_read_H_Ok_inv in H. destruct H as (Hmore & _ & H).
  apply bind_Ok_inv in H. destruct H as (et & f4 & H4 & H).
  apply (for_range_fixed_Ok_inv _ 8 (unpack_from [fmt_H; fmt_H; fmt_H; fmt_H])) in H4;
    [|apply (fixed_entry_read_unpack [fmt_H; fmt_H; fmt_H; fmt_H])].
  destruct H4 as (Het & -> & ->).
  apply bind_read_H_Ok_inv in H. destruct H as (Hcnt & _ & H).
  apply bind_Ok_inv in H. destruct H as (attrs & f6 & H6 & H).
  apply ret_Ok_inv in H. destruct H as [-> ->].
  rewrite !remaining_advance in *. rewrite !advance_advance in H6.
  split; [lia|].
  eexists _, _, _, _, attrs. split; [reflexivity|].
  eapply (for_range_Forall (rec cp)); [exact Hl | | constructor | exact H6].
  intros m x f. rewrite advance_advance. apply Hrec. lia.
Qed.

Lemma parse_variant_depth_0 rec c name cp fp a fp' :
  c <> cls_Code -> _parse rec c name cp fp = Ok (a, fp') -> Code_depth a = 0.
Proof.
  intros Hc H. apply parse_variant_class in H. destruct H as [H _].
  destruct a; simpl in *; congruence.
Qed.

(** X14: Code attributes cannot nest deeper than the input is long: every
    level costs at least 18 bytes, the 6-byte header and the 12 bytes of
    fixed Code fields, so a decoded attribute nests Code at most
    [unread bytes / 18] deep. *)
Theorem Code_depth_is_bounded cp fp a fp' :
  Attribute_parse cp fp = Ok (a, fp') ->
  18 * Code_depth a <= remaining fp.
Proof.
  assert (H : forall N fp a fp', length (getvalue fp) <= N ->
                Attribute_parse cp fp = Ok (a, fp') ->
                18 * Code_depth a <= remaining fp).
  { induction N as [|N IH]; intros f0 a0 f0' HN H0;
      destruct (Attribute_parse_Ok_inv _ _ _ _ H0)
        as (ni & len & name & v & Hh & Hg & Hv & _ & Hd);
      destruct (header_Ok_inv _ _ Hh) as (H6 & _);
      pose proof (remaining_le f0) as Hle.
    - lia.
    - pose proof (length_body f0 len) as Hb.
      destruct (lookup_subclass v) as [c|]; [|subst a0; simpl; lia].
      apply run_Ok_inv in Hd. destruct Hd as (fpi & Hd).
      assert (Hc : c = cls_Code \/ c <> cls_Code)
        by (destruct c; auto; right; discriminate).
      destruct Hc as [-> | Hc].
      + simpl in Hd.
        apply (Code_parse_nested Attribute_parse name cp _ _ _
                 (fun x => 18 * Code_depth x <= length (body f0 len) - 12)
                 (local_Attribute_parse cp)) in Hd.
        * destruct Hd as (H12 & ms & ml & code & et & attrs & -> & Hall).
          unfold remaining in H12. rewrite unread_new in H12. cbn [Code_depth].
          assert (Hmax : list_max (map Code_depth attrs) * 18 <=
                         length (body f0 len) - 12).
          { assert (Hm : list_max (map Code_depth attrs) <=
                         (length (body f0 len) - 12) / 18).
            { apply list_max_le, Forall_map. eapply Forall_impl; [|exact Hall].
              intros x Hx. simpl in Hx. apply Nat.div_le_lower_bound; lia. }
            pose proof (Nat.Div0.mul_div_le (length (body f0 len) - 12) 18). nia. }
          lia.
        * intros m x f Hm Hx.
          assert (Hr : remaining (advance (BytesIO_new (body f0 len)) m) <=
                       length (body f0 len) - 12).
          { rewrite remaining_advance. unfold remaining. rewrite unread_new. lia. }
          apply IH in Hx; [lia|]. simpl. lia.
      + rewrite (parse_variant_depth_0 _ _ _ _ _ _ _ Hc Hd). lia. }
  apply (H (length (getvalue fp))). lia.
Qed.

End Attributes.

Arguments UnknownAttribute {Constant AccessFlags} name info.
Arguments Attribute_ConstantValue {Constant AccessFlags} name constant_value.
Arguments Attribute_Code {Constant AccessFlags} name max_stack max_locals code
  exception_table attributes.
Arguments Attribute_Exceptions {Constant AccessFlags} name exception_index_table.
Arguments Attribute_InnerClasses {Constant AccessFlags} name inner_classes.
Arguments Attribute_Synthetic {Constant AccessFlags} name.
Arguments Attribute_Signature {Constant AccessFlags} name signature.
Arguments Attribute_parse {Constant} value {AccessFlags} InnerClassAccessFlags
  constant_pool _.
Arguments _parse {Constant AccessFlags} InnerClassAccessFlags Attribute_parse
  subclass _ _ _.
Arguments Attribute_parse_fuel {Constant} value {AccessFlags} InnerClassAccessFlags
  fuel constant_pool _.
Arguments Attribute_Code_parse {Constant AccessFlags} Attribute_parse name
  constant_pool _.
Arguments Attribute_Exceptions_parse {Constant AccessFlags} name constant_pool _.
Arguments attr_name {Constant AccessFlags} a.
Arguments class_of {Constant AccessFlags} a.
Arguments mkInnerClass {Constant AccessFlags} inner_class_info outer_class_info
  inner_name inner_class_access_flags.

(** ** Worked inputs *)

Local Open Scope string_scope.

(** The scenario of the specification: body [00 05] of a Signature attribute
    with entry 5 being ["Ljava/util/List;"]. *)
Example Signature_scenario :
  Attribute_parse utf8_value raw_flags ["Signature"; "a"; "b"; "c"; "Ljava/util/List;"]
    (BytesIO_new [x00; x01; x00; x00; x00; x02; x00; x05]) =
  Ok (Attribute_Signature "Signature" "Ljava/util/List;",
      mkBytesIO [x00; x01; x00; x00; x00; x02; x00; x05] 8).
Proof. vm_compute. reflexivity. Qed.

(** C1: the code does not reject index 0.  With a name index of 0 the name
    is the last entry of the constant pool, here ["Foo"], and an attribute is
    returned; with a ConstantValue index of 0 the constant is that last entry
    too.  Neither call raises [IndexError]. *)
Theorem index_zero_resolves_to_last_entry :
  Attribute_parse utf8_value raw_flags ["ConstantValue"; "Ljava/util/List;"; "Foo"]
    (BytesIO_new [x00; x00; x00; x00; x00; x01; x2a]) =
  Ok (UnknownAttribute "Foo" [x2a],
      mkBytesIO [x00; x00; x00; x00; x00; x01; x2a] 7) /\
  Attribute_parse utf8_value raw_flags ["ConstantValue"; "Ljava/util/List;"; "Foo"]
    (BytesIO_new [x00; x01; x00; x00; x00; x02; x00; x00]) =
  Ok (Attribute_ConstantValue "ConstantValue" "Foo",
      mkBytesIO [x00; x01; x00; x00; x00; x02; x00; x00] 8).
Proof. split; vm_compute; reflexivity. Qed.

(** C2: an InnerClasses entry whose outer-class and inner-name indices are
    0 is accepted, but both fields come out as the last entry of the constant
    pool, here ["Last"], not as an absent marker. *)
Theorem InnerClasses_index_zero_is_last_entry :
  Attribute_parse utf8_value raw_flags ["InnerClasses"; "Outer"; "Inner"; "Last"]
    (BytesIO_new [x00; x01; x00; x00; x00; x0a;
                  x00; x01; x00; x03; x00; x00; x00; x00; x00; x09]) =
  Ok (Attribute_InnerClasses "InnerClasses" [mkInnerClass "Inner" "Last" "Last" 9%Z],
      mkBytesIO [x00; x01; x00; x00; x00; x0a;
                 x00; x01; x00; x03; x00; x00; x00; x00; x00; x09] 16).
Proof. vm_compute. reflexivity. Qed.





(** A Code body with one bytecode byte, no exception entry and one nested
    Signature attribute. *)
Lemma Code_body_layout_witness :
  decodes (Attribute_Code_parse (Attribute_parse utf8_value raw_flags)
             "Code" ["Signature"; "T"; "Code"])
    ([x00; x01; x00; x02; x00; x00; x00; x01] ++ [x2a] ++ [x00; x00] ++ concat [] ++
     [x00; x01] ++ concat [[x00; x01; x00; x00; x00; x02; x00; x02]])
    (Attribute_Code "Code" 1 2 [x2a]
       (map (unpack_from [fmt_H; fmt_H; fmt_H; fmt_H]) [])
       [Attribute_Signature "Signature" "T"]) /\
  Z.of_nat (length [@Attribute_Signature string Z "Signature" "T"]) =
    be_uint 0 [x00; x01] /\
  Forall (fun chunk =>
            exists name_index attribute_length,
              unpack [fmt_H; fmt_I] (firstn 6 chunk) = Ok [name_index; attribute_length] /\
              length chunk = 6 + Z.to_nat attribute_length)
    [[x00; x01; x00; x00; x00; x02; x00; x02]].
Proof.
  apply (Code_body_layout _ utf8_value _ raw_flags "Code" ["Signature"; "T"; "Code"]
           [x00; x01; x00; x02; x00; x00; x00; x01] [x2a] [x00; x00] []
           [x00; x01] [[x00; x01; x00; x00; x00; x02; x00; x02]] 1 2
           [Attribute_Signature "Signature" "T"]).
  - reflexivity.
  - reflexivity.
  - reflexivity.
  - reflexivity.
  - constructor.
  - reflexivity.
  - reflexivity.
  - constructor; [|constructor].
    apply (decodes_Attribute_parse _ utf8_value _ raw_flags ["Signature"; "T"; "Code"]
             [x00; x01; x00; x00; x00; x02] [x00; x02] 1 "Signature" "Signature");
      reflexivity.
Defined.

(** The scenario of the specification: the Exceptions body
    [00 02 00 03 00 07] gives the two indices in that order. *)
Lemma tables_keep_count_and_order_witness :
  decodes (Attribute_Exceptions_parse (AccessFlags := Z) "Exceptions" ["Exceptions"])
    ([x00; x02] ++ concat [[x00; x03]; [x00; x07]])
    (Attribute_Exceptions "Exceptions" [3%Z; 7%Z]) /\
  Z.of_nat (length [3%Z; 7%Z]) = be_uint 0 [x00; x02].
Proof.
  apply (proj1 (tables_keep_count_and_order string Z raw_flags "Exceptions" ["Exceptions"])
           [x00; x02] [[x00; x03]; [x00; x07]] [3%Z; 7%Z]).
  - reflexivity.
  - reflexivity.
  - constructor; [|constructor; [|constructor]].
    + apply (decodes_read_H [x00; x03]). reflexivity.
    + apply (decodes_read_H [x00; x07]). reflexivity.
Defined.

Example Exceptions_scenario :
  Attribute_parse utf8_value raw_flags ["Exceptions"]
    (BytesIO_new [x00; x01; x00; x00; x00; x06; x00; x02; x00; x03; x00; x07]) =
  Ok (Attribute_Exceptions "Exceptions" [3%Z; 7%Z],
      mkBytesIO [x00; x01; x00; x00; x00; x06; x00; x02; x00; x03; x00; x07] 12).
Proof. vm_compute. reflexivity. Qed.

Lemma unknown_name_keeps_body_witness :
  Attribute_parse utf8_value raw_flags ["Foo"]
    (mkBytesIO [xee; x00; x01; x00; x00; x00; x02; x01; x02; xff] 1) =
  Ok (UnknownAttribute "Foo"
        (body (mkBytesIO [xee; x00; x01; x00; x00; x00; x02; x01; x02; xff] 1) 2),
      advance (mkBytesIO [xee; x00; x01; x00; x00; x00; x02; x01; x02; xff] 1)
        (6 + length
               (body (mkBytesIO [xee; x00; x01; x00; x00; x00; x02; x01; x02; xff] 1) 2))) /\
  forall hdr info post,
    unread (mkBytesIO [xee; x00; x01; x00; x00; x00; x02; x01; x02; xff] 1) =
      (hdr ++ info ++ post)%list ->
    length hdr = 6 ->
    2%Z = Z.of_nat (length info) ->
    body (mkBytesIO [xee; x00; x01; x00; x00; x00; x02; x01; x02; xff] 1) 2 = info.
Proof.
  apply (unknown_name_keeps_body _ utf8_value _ raw_flags ["Foo"]
           (mkBytesIO [xee; x00; x01; x00; x00; x00; x02; x01; x02; xff] 1)
           1 2 "Foo" "Foo").
  - reflexivity.
  - reflexivity.
  - reflexivity.
  - simpl. intros H.
    repeat (destruct H as [H|H]; [discriminate H|]). exact H.
Defined.

Example unknown_name_scenario :
  Attribute_parse utf8_value raw_flags ["Foo"]
    (mkBytesIO [xee; x00; x01; x00; x00; x00; x02; x01; x02; xff] 1) =
  Ok (UnknownAttribute "Foo" [x01; x02],
      mkBytesIO [xee; x00; x01; x00; x00; x00; x02; x01; x02; xff] 9).
Proof. vm_compute. reflexivity. Qed.

Lemma variant_matches_name_witness :
  exists name_index attribute_length name v,
    header (BytesIO_new [x00; x01; x00; x00; x00; x02; x00; x02]) =
      Ok [name_index; attribute_length] /\
    getitem ["Signature"; "T"] (name_index - 1) = Ok name /\
    utf8_value name = Some v /\
    attr_name (@Attribute_Signature string Z "Signature" "T") = name /\
    (In v recognized ->
     __name__ (class_of (@Attribute_Signature string Z "Signature" "T")) =
       String.append "Attribute_" v) /\
    (~ In v recognized ->
     class_of (@Attribute_Signature string Z "Signature" "T") = cls_UnknownAttribute).
Proof.
  apply (variant_matches_name _ utf8_value _ raw_flags ["Signature"; "T"]
           (BytesIO_new [x00; x01; x00; x00; x00; x02; x00; x02])
           (Attribute_Signature "Signature" "T")
           (mkBytesIO [x00; x01; x00; x00; x00; x02; x00; x02] 8)).
  vm_compute. reflexivity.
Defined.

Lemma Attribute_parse_deterministic_witness :
  Attribute_parse utf8_value raw_flags ["Signature"; "T"]
    (BytesIO_new [x00; x01; x00; x00; x00; x02; x00; x02]) =
  Attribute_parse utf8_value raw_flags ["Signature"; "T"]
    (mkBytesIO [x00; x01; x00; x00; x00; x02; x00; x02] 0) /\
  Attribute_parse utf8_value raw_flags ["Signature"; "T"]
    (BytesIO_new [x00; x01; x00; x00; x00; x02; x00; x02]) <> OutOfFuel /\
  (forall n m,
     remaining (BytesIO_new [x00; x01; x00; x00; x00; x02; x00; x02]) < n ->
     remaining (mkBytesIO [x00; x01; x00; x00; x00; x02; x00; x02] 0) < m ->
     Attribute_parse_fuel utf8_value raw_flags n ["Signature"; "T"]
       (BytesIO_new [x00; x01; x00; x00; x00; x02; x00; x02]) =
     Attribute_parse_fuel utf8_value raw_flags m ["Signature"; "T"]
       (mkBytesIO [x00; x01; x00; x00; x00; x02; x00; x02] 0)) /\
  (forall fp3,
     unread fp3 = unread (BytesIO_new [x00; x01; x00; x00; x00; x02; x00; x02]) ->
     run (Attribute_parse utf8_value raw_flags ["Signature"; "T"]) fp3 =
     run (Attribute_parse utf8_value raw_flags ["Signature"; "T"])
       (mkBytesIO [x00; x01; x00; x00; x00; x02; x00; x02] 0)).
Proof.
  apply (Attribute_parse_deterministic _ utf8_value _ raw_flags
           ["Signature"; "T"] ["Signature"; "T"]
           (BytesIO_new [x00; x01; x00; x00; x00; x02; x00; x02])
           (mkBytesIO [x00; x01; x00; x00; x00; x02; x00; x02] 0));
    reflexivity.
Defined.

(** A Signature body followed by three bytes it never reads. *)
Lemma trailing_body_bytes_are_ignored_witness :
  exists a',
    run (_parse raw_flags (Attribute_parse utf8_value raw_flags) cls_Signature
           "Signature" ["Signature"; "T"])
      (BytesIO_new ([x00; x02] ++ [xca; xfe; x00])) = Ok a'.
Proof.
  apply (proj2 (proj2 (proj2
           (trailing_body_bytes_are_ignored _ utf8_value _ raw_flags
              "Signature" ["Signature"; "T"])))
           cls_Signature [x00; x02] [xca; xfe; x00]
           (Attribute_Signature "Signature" "T")).
  reflexivity.
Defined.

Example Synthetic_with_a_body :
  Attribute_parse utf8_value raw_flags ["Synthetic"]
    (BytesIO_new [x00; x01; x00; x00; x00; x03; xca; xfe; x00]) =
  Ok (Attribute_Synthetic "Synthetic",
      mkBytesIO [x00; x01; x00; x00; x00; x03; xca; xfe; x00] 9).
Proof. vm_compute. reflexivity. Qed.

(** ** [__repr__] of the table records *)

Lemma str_int_inj n m : str_int n = str_int m -> n = m.
Proof.
  unfold str_int. intros H.
  assert (Hi : forall z,
            DecimalString.NilZero.int_of_string
              (DecimalString.NilZero.string_of_int (Z.to_int z)) = Some (Z.to_int z)).
  { intros z. apply DecimalString.NilZero.isi; destruct z; simpl; try discriminate;
      intros E; injection E as E; revert E; apply DecimalPos.Unsigned.to_uint_nonnil. }
  pose proof (Hi n) as Hn. rewrite H, Hi in Hn. injection Hn as Hn.
  rewrite <- (DecimalZ.of_to n), <- (DecimalZ.of_to m), Hn. reflexivity.
Qed.

Lemma free_of_uint a d :
  (forall b, In b ["0"; "1"; "2"; "3"; "4"; "5"; "6"; "7"; "8"; "9"]%char -> b <> a) ->
  free_of a (DecimalString.NilEmpty.string_of_uint d).
Proof.
  intros Ha. induction d; simpl; try (split; [apply Ha; simpl; tauto | assumption]).
  exact I.
Qed.

Lemma free_of_str_int a n :
  (forall b, In b ["-"; "0"; "1"; "2"; "3"; "4"; "5"; "6"; "7"; "8"; "9"]%char -> b <> a) ->
  free_of a (str_int n).
Proof.
  intros Ha.
  assert (Hd : forall d, free_of a (DecimalString.NilZero.string_of_uint d)).
  { intros d. destruct d; try (apply free_of_uint; intros b Hb; apply Ha; simpl in *; tauto).
    simpl. split; [apply Ha; simpl; tauto | exact I]. }
  unfold str_int. destruct (Z.to_int n) as [d|d]; simpl.
  - apply Hd.
  - split; [apply Ha; simpl; tauto | apply Hd].
Qed.

Lemma free_of_comma n : free_of ","%char (str_int n).
Proof.
  apply free_of_str_int. intros b Hb. simpl in Hb.
  repeat (destruct Hb as [<-|Hb]; [discriminate|]). destruct Hb.
Qed.

Lemma free_of_paren n : free_of ")"%char (str_int n).
Proof.
  apply free_of_str_int. intros b Hb. simpl in Hb.
  repeat (destruct Hb as [<-|Hb]; [discriminate|]). destruct Hb.
Qed.

(** Two strings cut at the first occurrence of a separator. *)
Lemma split_at a s1 : forall s2 r1 r2,
  free_of a s1 -> free_of a s2 ->
  (s1 ++ String a r1)%string = (s2 ++ String a r2)%string ->
  s1 = s2 /\ r1 = r2.
Proof.
  induction s1 as [|b s1 IH]; intros [|c s2] r1 r2 F1 F2 E; simpl in *.
  - injection E as ->. split; reflexivity.
  - injection E as E _. destruct F2 as [F2 _]. congruence.
  - injection E as E _. destruct F1 as [F1 _]. congruence.
  - injection E as -> E. destruct F1 as [_ F1]. destruct F2 as [_ F2].
    destruct (IH _ _ _ F1 F2 E) as [-> ->]. split; reflexivity.
Qed.

Ltac next_field E :=
  let E1 := fresh "E" in
  apply split_at in E; [|apply free_of_comma|apply free_of_comma];
  destruct E as [E1 E]; apply str_int_inj in E1; simpl in E; injection E as E.

Ltac last_field E :=
  let E1 := fresh "E" in
  apply split_at in E; [|apply free_of_paren|apply free_of_paren];
  destruct E as [E1 _]; apply str_int_inj in E1.

(** X13: [__repr__] of LineNumber, LocalVariable and LocalVariableType
    tells records with integer fields apart: two records of one class with
    the same text have the same fields. *)
Theorem repr_is_injective :
  (forall a b, LineNumber_repr a = LineNumber_repr b -> a = b) /\
  (forall a b, LocalVariable_repr a = LocalVariable_repr b -> a = b) /\
  (forall a b, LocalVariableType_repr a = LocalVariableType_repr b -> a = b).
Proof.
  refine (conj _ (conj _ _)).
  - intros [a1 a2] [b1 b2] E. unfold LineNumber_repr in E. simpl in E.
    injection E as E. next_field E. last_field E. congruence.
  - intros [a1 a2 a3 a4 a5] [b1 b2 b3 b4 b5] E. unfold LocalVariable_repr in E.
    simpl in E. injection E as E.
    next_field E. next_field E. next_field E. next_field E. last_field E.
    congruence.
  - intros [a1 a2 a3 a4 a5] [b1 b2 b3 b4 b5] E. unfold LocalVariableType_repr in E.
    simpl in E. injection E as E.
    next_field E. next_field E. next_field E. next_field E. last_field E.
    congruence.
Qed.

Arguments one_index {Constant AccessFlags} parser build.
Arguments constants_of {Constant AccessFlags} a.
Arguments expected {Constant} value cp e.
Arguments Code_depth {Constant AccessFlags} a.
Arguments Attribute_Signature_parse {Constant AccessFlags} name constant_pool _.
Arguments Attribute_EnclosingMethod_parse {Constant AccessFlags} name constant_pool _.
Arguments Attribute_EnclosingMethod {Constant AccessFlags} name class_ method.
Arguments Attribute_SourceDebugExtension {Constant AccessFlags} name debug_extension.

(** ** Worked inputs for the further properties *)

Example raw_table_of_two_entries :
  Attribute_Exceptions_parse (AccessFlags := Z) "Exceptions" []
    (BytesIO_new [x00; x02; x00; x03; x00; x07; xff]) =
  Ok (Attribute_Exceptions "Exceptions" [3%Z; 7%Z],
      mkBytesIO [x00; x02; x00; x03; x00; x07; xff] 6).
Proof.
  vm_compute. reflexivity.
Qed.

Example raw_table_cut_short :
  Attribute_Exceptions_parse (AccessFlags := Z) "Exceptions" []
    (BytesIO_new [x00; x02; x00; x03; x00]) = Raise struct_error.
Proof.
  vm_compute. reflexivity.
Qed.

Lemma raw_tables_are_lossless_witness :
  exists k,
    mkBytesIO [x00; x01; x00; x03; xff] 4 =
      advance (BytesIO_new [x00; x01; x00; x03; xff]) k /\
    mkBytesIO [xee; x00; x01; x00; x03] 5 =
      advance (mkBytesIO [xee; x00; x01; x00; x03] 1) k /\
    firstn k (unread (BytesIO_new [x00; x01; x00; x03; xff])) =
    firstn k (unread (mkBytesIO [xee; x00; x01; x00; x03] 1)).
Proof.
  apply (proj1 (raw_tables_are_lossless string Z "Exceptions" [])
           (BytesIO_new [x00; x01; x00; x03; xff])
           (mkBytesIO [xee; x00; x01; x00; x03] 1)
           (Attribute_Exceptions "Exceptions" [3%Z])).
  - vm_compute. reflexivity.
  - vm_compute. reflexivity.
Defined.

Lemma raw_tables_hold_u16_witness :
  (Z.of_nat (length [3%Z; 7%Z]) < 65536)%Z /\ Forall u16 [3%Z; 7%Z].
Proof.
  apply (proj1 (raw_tables_hold_u16 string Z "Exceptions" []
                  (BytesIO_new [x00; x02; x00; x03; x00; x07])
                  (mkBytesIO [x00; x02; x00; x03; x00; x07] 6))
           [3%Z; 7%Z]).
  vm_compute. reflexivity.
Defined.

Lemma single_index_variants_witness :
  Attribute_Signature_parse (AccessFlags := Z) "Signature" ["Signature"; "T"]
    (BytesIO_new [x00; x02]) =
  Ok (Attribute_Signature "Signature" "T", advance (BytesIO_new [x00; x02]) 2).
Proof.
  apply (proj1 (proj2 (proj1 (proj2 (single_index_variants string Z "Signature"))
                         ["Signature"; "T"] (BytesIO_new [x00; x02]))
                  ltac:(vm_compute; lia))
           "T").
  - vm_compute. discriminate.
  - reflexivity.
Defined.

Lemma EnclosingMethod_behaviour_witness :
  Attribute_EnclosingMethod_parse (AccessFlags := Z) "EnclosingMethod" ["A"; "B"]
    (BytesIO_new [x00; x01; x00; x02]) =
  Ok (Attribute_EnclosingMethod "EnclosingMethod" "A" "B",
      advance (BytesIO_new [x00; x01; x00; x02]) 4).
Proof.
  apply (proj2 (proj2 (proj2 (EnclosingMethod_behaviour string Z "EnclosingMethod"
                                ["A"; "B"] (BytesIO_new [x00; x01; x00; x02]))
                         ltac:(vm_compute; lia)))
           "A" "B").
  - reflexivity.
  - reflexivity.
Defined.

Lemma SourceDebugExtension_keeps_body_witness :
  Attribute_parse utf8_value raw_flags ["SourceDebugExtension"]
    (BytesIO_new [x00; x01; x00; x00; x00; x02; xca; xfe]) =
  Ok (Attribute_SourceDebugExtension "SourceDebugExtension"
        (body (BytesIO_new [x00; x01; x00; x00; x00; x02; xca; xfe]) 2),
      advance (BytesIO_new [x00; x01; x00; x00; x00; x02; xca; xfe])
        (6 + length (body (BytesIO_new [x00; x01; x00; x00; x00; x02; xca; xfe]) 2))) /\
  forall hdr info post,
    unread (BytesIO_new [x00; x01; x00; x00; x00; x02; xca; xfe]) =
      (hdr ++ info ++ post)%list ->
    length hdr = 6 ->
    2%Z = Z.of_nat (length info) ->
    body (BytesIO_new [x00; x01; x00; x00; x00; x02; xca; xfe]) 2 = info.
Proof.
  apply (SourceDebugExtension_keeps_body _ utf8_value _ raw_flags
           ["SourceDebugExtension"]
           (BytesIO_new [x00; x01; x00; x00; x00; x02; xca; xfe])
           1 2 "SourceDebugExtension"); reflexivity.
Defined.

Lemma constants_come_from_the_pool_witness :
  Forall (fun c => In c ["Signature"; "T"])
    (constants_of (@Attribute_Signature string Z "Signature" "T")).
Proof.
  apply (constants_come_from_the_pool _ utf8_value _ raw_flags ["Signature"; "T"]
           (BytesIO_new [x00; x01; x00; x00; x00; x02; x00; x02])
           (Attribute_Signature "Signature" "T")
           (mkBytesIO [x00; x01; x00; x00; x00; x02; x00; x02] 8)).
  vm_compute. reflexivity.
Defined.

Lemma only_expected_exceptions_witness :
  expected utf8_value ["Signature"; "T"] IndexError.
Proof.
  apply (only_expected_exceptions _ utf8_value _ raw_flags ["Signature"; "T"]
           (BytesIO_new [x00; x01; x00; x00; x00; x02; x00; x09])).
  vm_compute. reflexivity.
Defined.

Lemma Code_fits_its_body_witness :
  exists max_stack max_locals code exception_table attributes k,
    @Attribute_Code string Z "Code" 1 2 [x2a] []
      [Attribute_Signature "Signature" "T"] =
      Attribute_Code "Code" max_stack max_locals code exception_table attributes /\
    u16 max_stack /\ u16 max_locals /\
    Z.of_nat (length code) =
      be_uint 0 (firstn 4 (skipn 4 (unread (BytesIO_new
        [x00; x01; x00; x02; x00; x00; x00; x01; x2a; x00; x00; x00; x01;
         x00; x01; x00; x00; x00; x02; x00; x02])))) /\
    (Z.of_nat (length exception_table) < 65536)%Z /\
    Forall (fun entry => length entry = 4 /\ Forall u16 entry) exception_table /\
    (Z.of_nat (length attributes) < 65536)%Z /\
    mkBytesIO
      [x00; x01; x00; x02; x00; x00; x00; x01; x2a; x00; x00; x00; x01;
       x00; x01; x00; x00; x00; x02; x00; x02] 21 =
      advance (BytesIO_new
        [x00; x01; x00; x02; x00; x00; x00; x01; x2a; x00; x00; x00; x01;
         x00; x01; x00; x00; x00; x02; x00; x02]) k /\
    12 + length code + 8 * length exception_table + 6 * length attributes <= k /\
    k <= remaining (BytesIO_new
        [x00; x01; x00; x02; x00; x00; x00; x01; x2a; x00; x00; x00; x01;
         x00; x01; x00; x00; x00; x02; x00; x02]).
Proof.
  apply (Code_fits_its_body _ utf8_value _ raw_flags "Code" ["Signature"; "T"; "Code"]).
  vm_compute. reflexivity.
Defined.

Lemma only_the_last_attribute_is_cut_short_witness :
  exists name_index attribute_length,
    header (BytesIO_new [x00; x01; x00; x00; x00; x02; x00; x02;
                         x00; x01; x00; x00; x00; x09; x00; x02]) =
      Ok [name_index; attribute_length] /\
    length (body (BytesIO_new [x00; x01; x00; x00; x00; x02; x00; x02;
                               x00; x01; x00; x00; x00; x09; x00; x02])
              attribute_length) = Z.to_nat attribute_length /\
    mkBytesIO [x00; x01; x00; x00; x00; x02; x00; x02;
               x00; x01; x00; x00; x00; x09; x00; x02] 8 =
      advance (BytesIO_new [x00; x01; x00; x00; x00; x02; x00; x02;
                            x00; x01; x00; x00; x00; x09; x00; x02])
        (6 + Z.to_nat attribute_length).
Proof.
  apply (only_the_last_attribute_is_cut_short _ utf8_value _ raw_flags
           ["Signature"; "T"]
           (BytesIO_new [x00; x01; x00; x00; x00; x02; x00; x02;
                         x00; x01; x00; x00; x00; x09; x00; x02])
           (Attribute_Signature "Signature" "T")
           (mkBytesIO [x00; x01; x00; x00; x00; x02; x00; x02;
                       x00; x01; x00; x00; x00; x09; x00; x02] 8)
           (Attribute_Signature "Signature" "T")
           (mkBytesIO [x00; x01; x00; x00; x00; x02; x00; x02;
                       x00; x01; x00; x00; x00; x09; x00; x02] 16)).
  - vm_compute. reflexivity.
  - vm_compute. reflexivity.
Defined.

Lemma parse_fails_early_witness :
  Attribute_parse utf8_value raw_flags ["Signature"; "T"] (BytesIO_new []) =
  Raise struct_error.
Proof.
  apply (proj1 (parse_fails_early _ utf8_value _ raw_flags ["Signature"; "T"]
                  (BytesIO_new []))).
  vm_compute. lia.
Defined.

Example LineNumber_repr_scenario :
  LineNumber_repr (mkLineNumber 0 65535) = "LineNumber(start_pc=0, line_number=65535)".
Proof. vm_compute. reflexivity. Qed.

Lemma repr_is_injective_witness :
  mkLineNumber 4 17 = mkLineNumber (2 + 2) (18 - 1).
Proof.
  apply (proj1 repr_is_injective (mkLineNumber 4 17) (mkLineNumber (2 + 2) (18 - 1))).
  vm_compute. reflexivity.
Defined.

Lemma Code_depth_is_bounded_witness :
  18 * Code_depth (@Attribute_Code string Z "Code" 1 2 [x2a] []
                     [Attribute_Signature "Signature" "T"]) <=
  remaining (BytesIO_new
    [x00; x03; x00; x00; x00; x15;
     x00; x01; x00; x02; x00; x00; x00; x01; x2a; x00; x00; x00; x01;
     x00; x01; x00; x00; x00; x02; x00; x02]).
Proof.
  apply (Code_depth_is_bounded _ utf8_value _ raw_flags ["Signature"; "T"; "Code"]
           (BytesIO_new
              [x00; x03; x00; x00; x00; x15;
               x00; x01; x00; x02; x00; x00; x00; x01; x2a; x00; x00; x00; x01;
               x00; x01; x00; x00; x00; x02; x00; x02])
           (Attribute_Code "Code" 1 2 [x2a] [] [Attribute_Signature "Signature" "T"])
           (mkBytesIO
              [x00; x03; x00; x00; x00; x15;
               x00; x01; x00; x02; x00; x00; x00; x01; x2a; x00; x00; x00; x01;
               x00; x01; x00; x00; x00; x02; x00; x02] 27)).
  vm_compute. reflexivity.
Defined.
